(** * In-silico gene perturbation: [perturb_genes]

    A shallow embedding of the function [perturb_genes] of
    [notebooks/Task1.ipynb] and the properties of its validation, its
    copy / in-place behaviour and its arithmetic.

    Modelling decisions.
    - Matrix entries and factors are rationals ([Q]), the values of finite
      floats; NaN and infinities are outside the model.  [perturb_genes]
      multiplies without rounding error.  [perturb_genes_with] is the same
      code with the arithmetic of scipy and numpy as a parameter, and
      [numpy_arith] the arithmetic of a [float32] matrix: the results that
      hold up to the last digit are stated for it.
    - An [AnnData] object is its column labels [var_names] and its count
      matrix [X], a sparse matrix as the calls [.multiply] and [.tocsr]
      need it, stored row by row (one row per cell); the storage format is
      not modelled.  Objects live in a store indexed by references, so
      that [adata.copy()] and assignment through a view
      [adata[:, target].X = ...] are visible as such; the objects of the
      store are base objects, none a view of another.
    - A [string] is a Python [str] whose characters have code points below
      256, one [ascii] per character.
    - Column labels are looked up as pandas does it: a label that is
      absent, or an index that repeats a label, ends the lookup with an
      exception.
    - Python exceptions are values of [exn]; a call is a state transformer
      that yields either a value or an exception. *)

From Stdlib Require Import QArith Qround Qabs Lqa Qpower Qreduction Ascii.
From stdpp Require Import gmap strings list fin_maps pretty.

(** ** Numbers *)

(** [np.round] with [decimals = 0] rounds to the nearest integer and sends
    an exact half to the even neighbour. *)
Definition rint (x : Q) : Z :=
  let n := Qfloor x in
  match (x - inject_Z n ?= 1 # 2)%Q with
  | Lt => n
  | Gt => (n + 1)%Z
  | Eq => if Z.even n then n else (n + 1)%Z
  end.

(** Python numeric scalars: a [float] or an [int]. *)
Inductive num :=
  | PyFloat (x : Q)
  | PyInt (z : Z).

Definition num_val (n : num) : Q :=
  match n with
  | PyFloat x => x
  | PyInt z => inject_Z z
  end.

Global Instance Qlt_dec (x y : Q) : Decision (x < y)%Q.
Proof.
  destruct (Qlt_le_dec x y) as [H|H]; [left; exact H|right].
  intros H'. exact (Qlt_not_le _ _ H' H).
Defined.

(** ** Strings: Python's [repr] of a [str] and of a list of [str] *)

Definition squote : ascii := "'"%char.
Definition dquote : ascii := ascii_of_nat 34.
Definition backslash : ascii := ascii_of_nat 92.

Fixpoint has_char (c : ascii) (s : string) : bool :=
  match s with
  | EmptyString => false
  | String c' s' => if decide (c' = c) then true else has_char c s'
  end.

Definition hex_digit (n : nat) : ascii :=
  if decide (n < 10) then ascii_of_nat (48 + n) else ascii_of_nat (87 + n).

(** One character of a [repr]: the quote in use and the backslash get a
    backslash, tab, newline and carriage return their letter, the other
    characters that are not printable a two-digit hexadecimal escape:
    the control characters below 32 and from 127 to 159, the no-break
    space 160 and the soft hyphen 173; everything else is copied. *)
Definition repr_char (quote c : ascii) : string :=
  let n := nat_of_ascii c in
  if decide (c = quote ∨ c = backslash) then String backslash (String c EmptyString)
  else if decide (n = 9) then String backslash "t"
  else if decide (n = 10) then String backslash "n"
  else if decide (n = 13) then String backslash "r"
  else if decide (n < 32 ∨ 127 ≤ n ≤ 160 ∨ n = 173) then
    String backslash
      (String "x" (String (hex_digit (n / 16)) (String (hex_digit (n mod 16)) EmptyString)))
  else String c EmptyString.

Fixpoint repr_body (quote : ascii) (s : string) : string :=
  match s with
  | EmptyString => EmptyString
  | String c s' => repr_char quote c +:+ repr_body quote s'
  end.

Definition repr_quote (s : string) : ascii :=
  if has_char squote s && negb (has_char dquote s) then dquote else squote.

Definition repr_str (s : string) : string :=
  let q := repr_quote s in
  String q (repr_body q s +:+ String q EmptyString).

Fixpoint join (sep : string) (l : list string) : string :=
  match l with
  | [] => EmptyString
  | [s] => s
  | s :: l' => s +:+ sep +:+ join sep l'
  end.

Definition repr_list (l : list string) : string :=
  "[" +:+ join ", " (repr_str <$> l) +:+ "]".

(** ** Exceptions, values, objects and the store *)

Abbreviation loc := positive (only parsing).

Inductive exn :=
  | ValueError (msg : string)
  | TypeError (msg : string)
  | KeyError (not_found : list string)
  | InvalidIndexError
  | StaleReference (l : loc).

Inductive result (A : Type) :=
  | Return (a : A)
  | Raise (e : exn).
Arguments Return {A} a.
Arguments Raise {A} e.

Inductive pyval :=
  | VNone
  | VRef (l : loc).

Abbreviation matrix := (list (list Q)) (only parsing).

Record AnnData := mkAnnData {
  var_names : list string;
  X : matrix
}.

Abbreviation heap := (gmap positive AnnData) (only parsing).

Definition M (A : Type) : Type := heap → heap * result A.

Global Instance M_ret : MRet M := λ A a h, (h, Return a).
Global Instance M_bind : MBind M := λ A B f m h,
  match m h with
  | (h', Return a) => f a h'
  | (h', Raise e) => (h', Raise e)
  end.

Definition raise {A} (e : exn) : M A := λ h, (h, Raise e).

(** Reading the object behind a reference.  [StaleReference] is not a
    Python exception: it is the answer for a reference outside the store,
    which no Python program holds. *)
Definition deref (l : loc) : M AnnData := λ h,
  match h !! l with
  | Some a => (h, Return a)
  | None => (h, Raise (StaleReference l))
  end.

Definition store (l : loc) (a : AnnData) : M unit := λ h, (<[l := a]> h, Return ()).

(** A new object, at a reference the store does not hold yet. *)
Definition alloc (a : AnnData) : M loc := λ h,
  let l' := fresh (dom h) in (<[l' := a]> h, Return l').

(** [adata.copy()]: a new object with the same contents. *)
Definition copy_obj (l : loc) : M loc :=
  a ← deref l;
  alloc a.

(** ** Views: [adata[:, target]] *)

Definition index_of (names : list string) (t : string) : option nat :=
  fst <$> list_find (λ g, g = t) names.

Definition get_indexer (names : list string) (target : list string) : option (list nat) :=
  mapM (index_of names) target.

Record View := mkView {
  parent : loc;
  vidx : list nat
}.

(** [adata[:, target]]: all rows, the columns labelled [target], in the
    order of [target].  An empty [target] selects no column and looks
    nothing up.  Looking labels up in an index that repeats a label is an
    [InvalidIndexError] (pandas), an unknown label a [KeyError]. *)
Definition getitem_cols (adata : loc) (target : list string) : M View :=
  a ← deref adata;
  match target with
  | [] => mret (mkView adata [])
  | _ =>
    if bool_decide (NoDup (var_names a)) then
      match get_indexer (var_names a) target with
      | Some idx => mret (mkView adata idx)
      | None => raise (KeyError (filter (λ t, t ∉ var_names a) target))
      end
    else raise InvalidIndexError
  end.

Definition take_cols (idx : list nat) (m : matrix) : matrix :=
  (λ row : list Q, (λ j, default 0%Q (row !! j)) <$> idx) <$> m.

Definition put_row (idx : list nat) (vals : list Q) (row : list Q) : list Q :=
  foldl (λ acc jv, <[jv.1 := jv.2]> acc) row (zip idx vals).

Definition put_cols (idx : list nat) (vals : matrix) (m : matrix) : matrix :=
  zip_with (put_row idx) vals m.

(** [view.X] *)
Definition view_get_X (v : View) : M matrix :=
  a ← deref (parent v);
  mret (take_cols (vidx v) (X a)).

(** [view.X = value]: the assignment goes through to the parent. *)
Definition view_set_X (v : View) (value : matrix) : M unit :=
  a ← deref (parent v);
  store (parent v) (mkAnnData (var_names a) (put_cols (vidx v) value (X a))).

(** [m.multiply(factor)], without rounding error: the factors are
    broadcast along the rows.  [multiply_with] below takes the arithmetic
    of the library. *)
Definition multiply (m : matrix) (factor : list num) : matrix :=
  (λ row : list Q, zip_with (λ x f, x * num_val f)%Q row factor) <$> m.

(** [np.round(m)] *)
Definition np_round (m : matrix) : matrix :=
  (λ row : list Q, (λ x, inject_Z (rint x)) <$> row) <$> m.

(** ** Arguments of [perturb_genes] *)

Inductive target_arg :=
  | TStr (s : string)
  | TSeq (l : list string).

Inductive factor_arg :=
  | FNum (n : num)
  | FSeq (l : list num).

(** [if isinstance(target, str): target = [target]] *)
Definition norm_target (target : target_arg) : list string :=
  match target with
  | TStr s => [s]
  | TSeq l => l
  end.

(** [if isinstance(factor, float): factor = [factor]] *)
Definition norm_factor (factor : factor_arg) : factor_arg :=
  match factor with
  | FNum (PyFloat x) => FSeq [PyFloat x]
  | _ => factor
  end.

(** ** Error messages *)

Definition msg_length (nt nf : nat) : string :=
  "the number of provided targets must match the number of provided factors, but "
  +:+ pretty nt +:+ " and " +:+ pretty nf +:+ " values were passed, respectively".

Definition msg_missing (missing_genes sample : list string) : string :=
  "the following provided targets were not found in the index of the provided anndata object: "
  +:+ repr_list missing_genes +:+ ". Example names are " +:+ repr_list sample.

Definition msg_negative : string :=
  "some provided factors were smaller than 0. Please only provide positive numbers.".

Definition msg_duplicate : string := "target contains duplicate values.".

Definition msg_no_len : string := "object of type 'int' has no len()".

Definition py_truthy {A} (l : list A) : bool :=
  match l with
  | [] => false
  | _ => true
  end.

(** ** The function *)

(** [perturb_genes] with products free of rounding error; below,
    [perturb_genes_with] is the same code with the arithmetic of the
    library. *)

Definition perturb_genes (adata : loc) (target : target_arg) (factor : factor_arg)
    (copy : bool) : M pyval :=
  let target := norm_target target in
  match norm_factor factor with
  | FNum _ => raise (TypeError msg_no_len)        (* [len(factor)] *)
  | FSeq factor =>
    if bool_decide (length target ≠ length factor) then
      raise (ValueError (msg_length (length target) (length factor)))
    else
    a ← deref adata;
    let missing_genes := filter (λ t, t ∉ var_names a) target in
    if py_truthy missing_genes then
      raise (ValueError (msg_missing missing_genes (take 3 (var_names a))))
    else
    if py_truthy (filter (λ f, num_val f < 0)%Q factor) then
      raise (ValueError msg_negative)
    else
    if bool_decide (length target ≠ size (list_to_set target : gset string)) then
      raise (ValueError msg_duplicate)
    else
    adata ← (if copy then copy_obj adata else mret adata);
    v ← getitem_cols adata target;
    x ← view_get_X v;
    let perturbed_counts := multiply x factor in
    let perturbed_counts := np_round perturbed_counts in
    v ← getitem_cols adata target;
    _ ← view_set_X v perturbed_counts;
    mret (if copy then VRef adata else VNone)
  end.

(** The notebook's data, first two cells and last cell, and a store that
    holds it. *)
Definition nb_adata : AnnData :=
  mkAnnData ["ENSG00000171532"; "ENSG00000078018"] [[1; 13]; [0; 26]; [0; 1]]%Q.

Definition nb_heap : heap := {[ 1%positive := nb_adata ]}.


(** ** Requests *)

(** A request that passes the four checks. *)
Definition valid_request (a : AnnData) (target : list string) (factor : list num) : Prop :=
  length target = length factor ∧
  Forall (λ t, t ∈ var_names a) target ∧
  Forall (λ f, 0 <= num_val f)%Q factor ∧
  NoDup target.

(** The three lines that perturb the counts, on one row. *)
Definition perturb_row (idx : list nat) (factor : list num) (row : list Q) : list Q :=
  put_row idx
    ((λ x, inject_Z (rint x)) <$>
       zip_with (λ x f, x * num_val f)%Q ((λ j, default 0%Q (row !! j)) <$> idx) factor)
    row.

Definition perturbed (a : AnnData) (idx : list nat) (factor : list num) : AnnData :=
  mkAnnData (var_names a) (perturb_row idx factor <$> X a).

(** The factors as the caller wrote them, one or several. *)
Definition factor_values (factor : factor_arg) : list num :=
  match factor with
  | FNum n => [n]
  | FSeq l => l
  end.

(** The object a successful call hands back: the new object when a
    reference is returned, the caller's own object otherwise. *)
Definition result_obj (h : heap) (adata : loc) (v : pyval) : option AnnData :=
  match v with
  | VNone => h !! adata
  | VRef l' => h !! l'
  end.

(** The four checks, in the order of the taxonomy. *)
Inductive check :=
  | LengthMismatch
  | UnknownTarget
  | NegativeFactor
  | DuplicateTarget.

Definition check_rank (c : check) : nat :=
  match c with
  | LengthMismatch => 0
  | UnknownTarget => 1
  | NegativeFactor => 2
  | DuplicateTarget => 3
  end.

Definition violates (c : check) (a : AnnData) (target : list string)
    (factor : list num) : Prop :=
  match c with
  | LengthMismatch => length target ≠ length factor
  | UnknownTarget => ∃ t, t ∈ target ∧ t ∉ var_names a
  | NegativeFactor => ∃ f, f ∈ factor ∧ (num_val f < 0)%Q
  | DuplicateTarget => ¬ NoDup target
  end.

(** The exception the code raises for each check. *)
Definition error_of (c : check) (a : AnnData) (target : list string)
    (factor : list num) : exn :=
  match c with
  | LengthMismatch => ValueError (msg_length (length target) (length factor))
  | UnknownTarget =>
      ValueError (msg_missing (filter (λ t, t ∉ var_names a) target) (take 3 (var_names a)))
  | NegativeFactor => ValueError msg_negative
  | DuplicateTarget => ValueError msg_duplicate
  end.

(** [s] occurs in [m]. *)
Definition substring_of (s m : string) : Prop :=
  ∃ pre post, m = pre +:+ s +:+ post.

(** Identifiers that [repr] shows as they are, between single quotes. *)
Definition plain_char (c : ascii) : bool :=
  let n := nat_of_ascii c in
  bool_decide (c ≠ squote ∧ c ≠ backslash ∧ 32 ≤ n ∧ ¬ (127 ≤ n ≤ 160) ∧ n ≠ 173).

Fixpoint plain (s : string) : bool :=
  match s with
  | EmptyString => true
  | String c s' => plain_char c && plain s'
  end.

(** A count: a number with no fractional part. *)
Definition integer_valued (x : Q) : Prop := (inject_Z (Qfloor x) == x)%Q.

(** ** The arithmetic of the library *)

(** What scipy and numpy do to one entry: [mul k x f] is the product of
    the entry [x] with the factor [f] in a request of [k] factors, and
    [astype] the conversion to the dtype of the matrix when the rounded
    product is assigned to it. *)
Record arith := mkArith {
  mul : nat → Q → num → Q;
  astype : Q → Q
}.

(** [m.multiply(factor)] *)
Definition multiply_with (A : arith) (m : matrix) (factor : list num) : matrix :=
  (λ row : list Q, zip_with (mul A (length factor)) row factor) <$> m.

Definition astype_matrix (A : arith) (m : matrix) : matrix :=
  (λ row : list Q, astype A <$> row) <$> m.

(** [perturb_genes], line by line, with the arithmetic of the library as a
    parameter. *)
Definition perturb_genes_with (A : arith) (adata : loc) (target : target_arg)
    (factor : factor_arg) (copy : bool) : M pyval :=
  let target := norm_target target in
  match norm_factor factor with
  | FNum _ => raise (TypeError msg_no_len)        (* [len(factor)] *)
  | FSeq factor =>
    if bool_decide (length target ≠ length factor) then
      raise (ValueError (msg_length (length target) (length factor)))
    else
    a ← deref adata;
    let missing_genes := filter (λ t, t ∉ var_names a) target in
    if py_truthy missing_genes then
      raise (ValueError (msg_missing missing_genes (take 3 (var_names a))))
    else
    if py_truthy (filter (λ f, num_val f < 0)%Q factor) then
      raise (ValueError msg_negative)
    else
    if bool_decide (length target ≠ size (list_to_set target : gset string)) then
      raise (ValueError msg_duplicate)
    else
    adata ← (if copy then copy_obj adata else mret adata);
    v ← getitem_cols adata target;
    x ← view_get_X v;
    let perturbed_counts := multiply_with A x factor in
    let perturbed_counts := np_round perturbed_counts in
    v ← getitem_cols adata target;
    _ ← view_set_X v (astype_matrix A perturbed_counts);
    mret (if copy then VRef adata else VNone)
  end.

(** Arithmetic without rounding error: [perturb_genes] above is
    [perturb_genes_with exact_arith]. *)
Definition exact_arith : arith := mkArith (λ _ x f, x * num_val f)%Q (λ x, x).

(** *** Binary floating point *)

Definition pow2 (e : Z) : Q := (2 ^ e)%Q.

(** The exponent of the binade of [q]: the largest [e] with
    [2 ^ e <= |q|], for [q] other than zero. *)
Definition ilog2 (q : Q) : Z :=
  let c := (Z.log2 (Z.abs (Qnum q)) - Z.log2 (Zpos (Qden q)))%Z in
  if Qle_bool (pow2 c) (Qabs q) then c else (c - 1)%Z.

(** Rounding to the nearest number with [prec] significant bits and a
    last bit worth at least [2 ^ emin], an exact half going to the even
    significand.  Overflow to infinity is not modelled. *)
Definition fl (prec emin : Z) (q : Q) : Q :=
  if Qeq_bool q 0 then 0%Q
  else
    let e := Z.max (ilog2 q - (prec - 1)) emin in
    Qred (inject_Z (rint (q * pow2 (- e))) * pow2 e).

Definition fl32 : Q → Q := fl 24 (-149).
Definition fl64 : Q → Q := fl 53 (-1074).

(** The finite [float32] values. *)
Definition float32_value (q : Q) : Prop :=
  ∃ m k : Z, (Z.abs m < 2 ^ 24)%Z ∧ (-149 ≤ k ≤ 104)%Z ∧ (q == inject_Z m * pow2 k)%Q.

(** A [float32] matrix under numpy's promotion rules, as the notebook
    runs it.  One factor: [multiply] takes the scalar path, the factor is
    converted to [float32] and the product is a [float32] product.
    Several factors: the factors form a [float64] array and the product
    is a [float64] product.  The assignment converts to [float32]. *)
Definition numpy_arith : arith :=
  mkArith
    (λ k x f,
       if decide (k = 1) then fl32 (x * fl32 (num_val f))
       else fl64 (x * fl64 (num_val f)))
    fl32.

(** The entry written for the entry [x] and the factor [f]. *)
Definition entry_with (A : arith) (k : nat) (x : Q) (f : num) : Q :=
  astype A (inject_Z (rint (mul A k x f))).

Definition perturb_row_with (A : arith) (idx : list nat) (factor : list num)
    (row : list Q) : list Q :=
  put_row idx
    (astype A <$>
       ((λ x, inject_Z (rint x)) <$>
          zip_with (mul A (length factor)) ((λ j, default 0%Q (row !! j)) <$> idx) factor))
    row.

Definition perturbed_with (A : arith) (a : AnnData) (idx : list nat)
    (factor : list num) : AnnData :=
  mkAnnData (var_names a) (perturb_row_with A idx factor <$> X a).

(** The double nearest to 2.1, the value of the Python literal [2.1]. *)
Definition double_2_1 : Q := 4728779608739021 # 2251799813685248.

(** A [float32] matrix of one cell and one gene, holding the count [x]. *)
Definition one_count (x : Q) : AnnData := mkAnnData ["G"] [[x]].

Definition one_count_heap (x : Q) : heap := {[ 1%positive := one_count x ]}.

(** An identifier with a backslash: [a\b]. *)
Definition id_backslash : string :=
  String "a" (String backslash (String "b" EmptyString)).

(** The message of the not-found error when [a\b] is the one target and
    the matrix is the notebook's. *)
Definition backslash_msg : string :=
  msg_missing [id_backslash] (take 3 (var_names nb_adata)).

(** ** Searching a string *)

Fixpoint is_prefix (s m : string) : bool :=
  match s, m with
  | EmptyString, _ => true
  | String c s', String d m' => if decide (c = d) then is_prefix s' m' else false
  | String _ _, EmptyString => false
  end.

Fixpoint is_substring (s m : string) : bool :=
  is_prefix s m ||
  match m with
  | EmptyString => false
  | String _ m' => is_substring s m'
  end.

(** ** Rounding *)

Lemma rint_cases (x : Q) :
  let n := Qfloor x in
  (x - inject_Z n < 1 # 2 ∧ rint x = n)%Q ∨
  ((1 # 2) < x - inject_Z n ∧ rint x = (n + 1)%Z)%Q ∨
  (x - inject_Z n == 1 # 2 ∧ Z.even (rint x) = true ∧
     (rint x = n ∨ rint x = (n + 1)%Z))%Q.
Proof.
  intros n. unfold rint. fold n.
  destruct (x - inject_Z n ?= 1 # 2)%Q eqn:E.
  - apply Qeq_alt in E. right; right. split; [done|].
    destruct (Z.even n) eqn:Ev; [by auto|].
    split; [|by auto]. rewrite Z.even_add, Ev. done.
  - apply Qlt_alt in E. by left.
  - apply Qgt_alt in E. right; left. done.
Qed.

Lemma floor_bounds (x : Q) :
  (inject_Z (Qfloor x) <= x ∧ x < inject_Z (Qfloor x) + 1)%Q.
Proof.
  split; [apply Qfloor_le|].
  pose proof (Qlt_floor x) as H. rewrite inject_Z_plus in H. exact H.
Qed.

Lemma rint_error (x : Q) : (Qabs (x - inject_Z (rint x)) <= 1 # 2)%Q.
Proof.
  destruct (floor_bounds x) as [Hlo Hhi].
  apply Qabs_Qle_condition.
  destruct (rint_cases x) as [[H ->]|[[H ->]|[H [_ [-> | ->]]]]];
    rewrite ?inject_Z_plus; change (inject_Z 1) with 1%Q; split; lra.
Qed.

Lemma rint_nearest (x : Q) (k : Z) :
  (Qabs (x - inject_Z (rint x)) <= Qabs (x - inject_Z k))%Q.
Proof.
  pose proof (rint_error x) as He.
  destruct (Z.eq_dec k (rint x)) as [->|Hne]; [apply Qle_refl|].
  eapply Qle_trans; [exact He|].
  apply Qabs_Qle_condition in He as [He1 He2].
  destruct (Z_lt_le_dec k (rint x)) as [Hlt|Hge].
  - assert (inject_Z k + 1 <= inject_Z (rint x))%Q as Hk.
    { change 1%Q with (inject_Z 1). rewrite <- inject_Z_plus, <- Zle_Qle. lia. }
    eapply Qle_trans; [|apply Qle_Qabs]. lra.
  - assert (inject_Z (rint x) + 1 <= inject_Z k)%Q as Hk.
    { change 1%Q with (inject_Z 1). rewrite <- inject_Z_plus, <- Zle_Qle. lia. }
    rewrite <- Qabs_opp. eapply Qle_trans; [|apply Qle_Qabs]. lra.
Qed.

Lemma rint_tie_even (x : Q) :
  (Qabs (x - inject_Z (rint x)) == 1 # 2)%Q → Z.even (rint x) = true.
Proof.
  intros Ht. destruct (floor_bounds x) as [Hlo Hhi].
  destruct (rint_cases x) as [[H E]|[[H E]|[_ [E _]]]]; [| |exact E];
    exfalso; rewrite E in Ht; revert Ht; rewrite ?inject_Z_plus;
    change (inject_Z 1) with 1%Q.
  - rewrite Qabs_pos by lra. lra.
  - rewrite Qabs_neg by lra. lra.
Qed.

Global Instance rint_proper : Proper (Qeq ==> eq) rint.
Proof.
  intros x y E. unfold rint. rewrite (Qfloor_comp _ _ E).
  assert ((x - inject_Z (Qfloor y) ?= 1 # 2) = (y - inject_Z (Qfloor y) ?= 1 # 2))%Q as ->; [|done].
  by rewrite E.
Qed.

Lemma rint_inject_Z (z : Z) : rint (inject_Z z) = z.
Proof.
  unfold rint. rewrite Qfloor_Z.
  assert ((inject_Z z - inject_Z z ?= 1 # 2) = Lt)%Q as ->; [|done].
  apply (proj1 (Qlt_alt _ _)). lra.
Qed.

Lemma rint_nonneg (x : Q) : (0 <= x)%Q → (0 <= rint x)%Z.
Proof.
  intros Hx. assert (0 <= Qfloor x)%Z as Hf.
  { change 0%Z with (Qfloor 0). by apply Qfloor_resp_le. }
  destruct (rint_cases x) as [[_ ->]|[[_ ->]|[_ [_ [-> | ->]]]]]; lia.
Qed.

(** ** Writing columns back into a row *)

Section put_row.
Implicit Types (idx : list nat) (vals row : list Q).

Lemma put_row_nil_vals idx row : put_row idx [] row = row.
Proof. unfold put_row. by destruct idx. Qed.

Lemma put_row_cons j idx v vals row :
  put_row (j :: idx) (v :: vals) row = put_row idx vals (<[j := v]> row).
Proof. done. Qed.

Lemma put_row_length idx vals row : length (put_row idx vals row) = length row.
Proof.
  revert vals row. induction idx as [|j idx IH]; intros [|v vals] row; try done.
  rewrite put_row_cons, IH. apply length_insert.
Qed.

Lemma put_row_lookup_other idx vals row j :
  j ∉ idx → put_row idx vals row !! j = row !! j.
Proof.
  revert vals row. induction idx as [|j0 idx IH]; intros [|v vals] row Hj; try done.
  apply not_elem_of_cons in Hj as [Hne Hj].
  rewrite put_row_cons, IH by done. by apply list_lookup_insert_ne.
Qed.

Lemma put_row_lookup_written idx vals row i j v :
  NoDup idx → idx !! i = Some j → vals !! i = Some v → j < length row →
  put_row idx vals row !! j = Some v.
Proof.
  revert vals row i.
  induction idx as [|j0 idx IH]; intros [|v0 vals] row i Hnd Hi Hv Hlt; try done.
  apply NoDup_cons in Hnd as [Hj0 Hnd]. rewrite put_row_cons.
  destruct i as [|i]; simplify_eq/=.
  - rewrite put_row_lookup_other by done. by apply list_lookup_insert_eq.
  - apply (IH _ _ i); [done..|]. by rewrite length_insert.
Qed.

(** Without any assumption on [idx]: a cell keeps its value or holds one
    of the values written to its column. *)
Lemma put_row_lookup_cases idx vals row j :
  put_row idx vals row !! j = row !! j ∨
  (j < length row ∧
   ∃ i v, idx !! i = Some j ∧ vals !! i = Some v ∧ put_row idx vals row !! j = Some v).
Proof.
  revert vals row. induction idx as [|j0 idx IH]; intros [|v0 vals] row; try by left.
  rewrite put_row_cons.
  destruct (IH vals (<[j0 := v0]> row)) as [E|(Hlt & i & v & Hi & Hv & E)].
  - rewrite E. destruct (decide (j0 = j)) as [->|Hne].
    + destruct (decide (j < length row)) as [Hlt|Hge].
      * right. split; [done|]. exists 0, v0. by rewrite list_lookup_insert_eq.
      * left. rewrite list_insert_ge by lia. done.
    + left. by apply list_lookup_insert_ne.
  - right. rewrite length_insert in Hlt. split; [done|]. by exists (S i), v.
Qed.
End put_row.

Lemma put_cols_perturb idx factor (m : list (list Q)) :
  put_cols idx (np_round (multiply (take_cols idx m) factor)) m
  = perturb_row idx factor <$> m.
Proof.
  unfold put_cols, np_round, multiply, take_cols.
  induction m as [|row m IH]; [done|]. simpl. f_equal. exact IH.
Qed.

Section perturb_row.
Implicit Types (idx : list nat) (factor : list num) (row : list Q).

Lemma perturb_row_length idx factor row :
  length (perturb_row idx factor row) = length row.
Proof. apply put_row_length. Qed.

Lemma perturb_row_vals idx factor row i v :
  ((λ x, inject_Z (rint x)) <$>
     zip_with (λ x f, x * num_val f)%Q ((λ j, default 0%Q (row !! j)) <$> idx) factor)
    !! i = Some v ↔
  ∃ j f, idx !! i = Some j ∧ factor !! i = Some f ∧
         v = inject_Z (rint (default 0%Q (row !! j) * num_val f)).
Proof.
  rewrite list_lookup_fmap, fmap_Some. setoid_rewrite lookup_zip_with_Some.
  setoid_rewrite list_lookup_fmap. setoid_rewrite fmap_Some.
  split.
  - intros (? & (? & f & -> & (j & Hj & ->) & Hf) & ->). by exists j, f.
  - intros (j & f & Hj & Hf & ->). eexists. split; [|done].
    eexists _, f. split; [done|]. split; [|done]. by exists j.
Qed.

Lemma perturb_row_lookup_other idx factor row j :
  j ∉ idx → perturb_row idx factor row !! j = row !! j.
Proof. apply put_row_lookup_other. Qed.

Lemma perturb_row_lookup_target idx factor row i j f x :
  NoDup idx → idx !! i = Some j → factor !! i = Some f → row !! j = Some x →
  perturb_row idx factor row !! j = Some (inject_Z (rint (x * num_val f))).
Proof.
  intros Hnd Hi Hf Hx. unfold perturb_row.
  apply (put_row_lookup_written _ _ _ i); [done..| |by eapply lookup_lt_Some].
  apply perturb_row_vals. exists j, f. by rewrite Hx.
Qed.

Lemma perturb_row_lookup_cases idx factor row j :
  perturb_row idx factor row !! j = row !! j ∨
  ∃ i f x, idx !! i = Some j ∧ factor !! i = Some f ∧ row !! j = Some x ∧
           perturb_row idx factor row !! j = Some (inject_Z (rint (x * num_val f))).
Proof.
  unfold perturb_row.
  destruct (put_row_lookup_cases idx
    ((λ x, inject_Z (rint x)) <$>
       zip_with (λ x f, x * num_val f)%Q ((λ j, default 0%Q (row !! j)) <$> idx) factor)
    row j) as [E|(Hlt & i & v & Hi & Hv & E)]; [by left|right].
  apply perturb_row_vals in Hv as (j' & f & Hj' & Hf & ->). simplify_eq.
  destruct (lookup_lt_is_Some_2 row j Hlt) as [x Hx].
  exists i, f, x. rewrite E, Hx. done.
Qed.
End perturb_row.

(** ** The validation conditions *)

Lemma py_truthy_filter_false {A} (P : A → Prop) `{!∀ x, Decision (P x)} (l : list A) :
  py_truthy (filter P l) = false ↔ Forall (λ x, ¬ P x) l.
Proof.
  induction l as [|x l IH]; simpl; [by split; [constructor|]|].
  rewrite filter_cons. destruct (decide (P x)) as [Hx|Hx]; simpl.
  - split; [done|]. by intros [? _]%Forall_cons.
  - rewrite IH, Forall_cons. tauto.
Qed.

Lemma py_truthy_filter_true {A} (P : A → Prop) `{!∀ x, Decision (P x)} (l : list A) :
  py_truthy (filter P l) = true ↔ ∃ x, x ∈ l ∧ P x.
Proof.
  rewrite <- Exists_exists. induction l as [|x l IH]; simpl.
  - split; [done|]. by intros ?%Exists_nil.
  - rewrite filter_cons. destruct (decide (P x)) as [Hx|Hx]; simpl.
    + split; [|done]. intros _. by apply Exists_cons_hd.
    + rewrite IH, Exists_cons. tauto.
Qed.

Lemma size_list_to_set_le (l : list string) :
  size (list_to_set l : gset string) ≤ length l.
Proof.
  induction l as [|x l IH]; [by rewrite list_to_set_nil, size_empty|].
  rewrite list_to_set_cons, size_union_alt, size_singleton. simpl.
  pose proof (subseteq_size (list_to_set l ∖ {[x]}) (list_to_set l : gset string)) as H.
  assert (list_to_set l ∖ {[x]} ⊆ (list_to_set l : gset string)) as Hs.
  { intros y Hy. by apply elem_of_difference in Hy as [Hy _]. }
  specialize (H Hs). lia.
Qed.

(** [len(target) != len(set(target))] holds exactly when an identifier
    occurs twice. *)
Lemma length_size_NoDup (l : list string) :
  length l = size (list_to_set l : gset string) ↔ NoDup l.
Proof.
  split; [|intros H; by rewrite size_list_to_set].
  induction l as [|x l IH]; [constructor|].
  rewrite list_to_set_cons. simpl. intros Hlen.
  destruct (decide (x ∈ l)) as [Hin|Hnin].
  - exfalso. pose proof (size_list_to_set_le l) as Hle.
    assert ({[x]} ∪ list_to_set l = (list_to_set l : gset string)) as E.
    { apply set_eq. intros y.
      rewrite elem_of_union, elem_of_singleton, elem_of_list_to_set.
      split; [by intros [->|Hy]|by right]. }
    rewrite E in Hlen. lia.
  - constructor; [done|]. apply IH.
    rewrite size_union, size_singleton in Hlen; [lia|].
    apply disjoint_singleton_l. by rewrite elem_of_list_to_set.
Qed.

Section index.
Implicit Types (names target : list string) (idx : list nat).

Lemma index_of_Some names t j : index_of names t = Some j → names !! j = Some t.
Proof.
  unfold index_of. intros [[j' g] [E ->]]%fmap_Some.
  apply list_find_Some in E as (Hj & -> & _). done.
Qed.

Lemma index_of_is_Some names t : t ∈ names → is_Some (index_of names t).
Proof.
  intros Hin. unfold index_of.
  destruct (list_find (λ g, g = t) names) as [[j g]|] eqn:E; [by eexists|].
  apply list_find_None in E. rewrite Forall_forall in E. by destruct (E t Hin).
Qed.

Lemma index_of_NoDup names t j :
  NoDup names → names !! j = Some t → index_of names t = Some j.
Proof.
  intros Hnd Hj.
  destruct (index_of_is_Some names t) as [j' Hj'].
  { apply list_elem_of_lookup. by exists j. }
  rewrite Hj'. f_equal. apply index_of_Some in Hj'.
  by eapply NoDup_lookup.
Qed.

Lemma get_indexer_is_Some names target :
  Forall (λ t, t ∈ names) target → is_Some (get_indexer names target).
Proof.
  intros H. apply mapM_is_Some. eapply Forall_impl; [exact H|].
  intros t Ht. by apply index_of_is_Some.
Qed.

Lemma get_indexer_length names target idx :
  get_indexer names target = Some idx → length idx = length target.
Proof. intros H. symmetry. by eapply length_mapM. Qed.

Lemma get_indexer_lookup names target idx i t :
  get_indexer names target = Some idx → target !! i = Some t →
  ∃ j, idx !! i = Some j ∧ index_of names t = Some j.
Proof. intros H%mapM_Some Ht. by eapply Forall2_lookup_l in H. Qed.

Lemma get_indexer_lookup_inv names target idx i j :
  get_indexer names target = Some idx → idx !! i = Some j →
  ∃ t, target !! i = Some t ∧ names !! j = Some t.
Proof.
  intros H%mapM_Some Hj. eapply Forall2_lookup_r in H as (t & Ht & E); [|done].
  exists t. split; [done|]. by apply index_of_Some.
Qed.

Lemma get_indexer_NoDup names target idx :
  get_indexer names target = Some idx → NoDup target → NoDup idx.
Proof.
  intros H Hnd. apply NoDup_alt. intros i1 i2 j H1 H2.
  destruct (get_indexer_lookup_inv _ _ _ _ _ H H1) as (t1 & Ht1 & Hn1).
  destruct (get_indexer_lookup_inv _ _ _ _ _ H H2) as (t2 & Ht2 & Hn2).
  simplify_eq. by eapply NoDup_lookup.
Qed.

(** A column whose label is not requested is not among the indices. *)
Lemma get_indexer_not_elem names target idx j :
  get_indexer names target = Some idx →
  (∀ t, t ∈ target → names !! j ≠ Some t) → j ∉ idx.
Proof.
  intros H Hj [i Hi]%list_elem_of_lookup.
  destruct (get_indexer_lookup_inv _ _ _ _ _ H Hi) as (t & Ht & Hn).
  eapply Hj; [|done]. apply list_elem_of_lookup. by exists i.
Qed.
End index.

(** ** Running [perturb_genes] *)

Lemma getitem_cols_run (h : gmap positive AnnData) (l : positive) (a : AnnData)
    (ts : list string) (idx : list nat) :
  h !! l = Some a → NoDup (var_names a) ∨ ts = [] →
  get_indexer (var_names a) ts = Some idx →
  getitem_cols l ts h = (h, Return (mkView l idx)).
Proof.
  intros Hl Hcase Hidx. unfold getitem_cols, mbind, M_bind, deref. rewrite Hl.
  destruct ts as [|t ts].
  - by injection Hidx as <-.
  - destruct Hcase as [Hnames|?]; [|done].
    by rewrite (bool_decide_eq_true_2 _ Hnames), Hidx.
Qed.

Section run.
Context (h : gmap positive AnnData) (l : positive) (a : AnnData).
Context (target : target_arg) (factor : factor_arg) (fs : list num) (copy : bool).
Hypothesis Hl : h !! l = Some a.
Hypothesis Hfs : norm_factor factor = FSeq fs.

Lemma run_length_mismatch :
  length (norm_target target) ≠ length fs →
  perturb_genes l target factor copy h
  = (h, Raise (ValueError (msg_length (length (norm_target target)) (length fs)))).
Proof using Hfs.
  intros Hlen. unfold perturb_genes. rewrite Hfs.
  by rewrite bool_decide_eq_true_2.
Qed.

Lemma run_unknown_target :
  length (norm_target target) = length fs →
  (∃ t, t ∈ norm_target target ∧ t ∉ var_names a) →
  perturb_genes l target factor copy h
  = (h, Raise (ValueError (msg_missing
           (filter (λ t, t ∉ var_names a) (norm_target target))
           (take 3 (var_names a))))).
Proof using Hl Hfs.
  intros Hlen Hmiss. unfold perturb_genes. rewrite Hfs.
  rewrite bool_decide_eq_false_2 by (intros ?; done).
  unfold mbind, M_bind, deref. rewrite Hl.
  assert (py_truthy (filter (λ t, t ∉ var_names a) (norm_target target)) = true) as ->
    by (by apply py_truthy_filter_true).
  done.
Qed.

Lemma run_negative_factor :
  length (norm_target target) = length fs →
  Forall (λ t, t ∈ var_names a) (norm_target target) →
  (∃ f, f ∈ fs ∧ (num_val f < 0)%Q) →
  perturb_genes l target factor copy h = (h, Raise (ValueError msg_negative)).
Proof using Hl Hfs.
  intros Hlen Hin Hneg. unfold perturb_genes. rewrite Hfs.
  rewrite bool_decide_eq_false_2 by (intros ?; done).
  unfold mbind, M_bind, deref. rewrite Hl.
  assert (py_truthy (filter (λ t, t ∉ var_names a) (norm_target target)) = false) as ->.
  { apply py_truthy_filter_false. eapply Forall_impl; [exact Hin|]. intros t Ht Hn. exact (Hn Ht). }
  assert (py_truthy (filter (λ f, num_val f < 0)%Q fs) = true) as ->
    by (by apply py_truthy_filter_true).
  done.
Qed.

Lemma run_duplicate_target :
  length (norm_target target) = length fs →
  Forall (λ t, t ∈ var_names a) (norm_target target) →
  Forall (λ f, 0 <= num_val f)%Q fs →
  ¬ NoDup (norm_target target) →
  perturb_genes l target factor copy h = (h, Raise (ValueError msg_duplicate)).
Proof using Hl Hfs.
  intros Hlen Hin Hpos Hdup. unfold perturb_genes. rewrite Hfs.
  rewrite bool_decide_eq_false_2 by (intros ?; done).
  unfold mbind, M_bind, deref. rewrite Hl.
  assert (py_truthy (filter (λ t, t ∉ var_names a) (norm_target target)) = false) as ->.
  { apply py_truthy_filter_false. eapply Forall_impl; [exact Hin|]. intros t Ht Hn. exact (Hn Ht). }
  assert (py_truthy (filter (λ f, num_val f < 0)%Q fs) = false) as ->.
  { apply py_truthy_filter_false. eapply Forall_impl; [exact Hpos|].
    intros f Hf Hf'. exact (Qlt_not_le _ _ Hf' Hf). }
  rewrite bool_decide_eq_true_2; [done|].
  intros E. by apply Hdup, length_size_NoDup.
Qed.

Lemma run_valid_gen :
  NoDup (var_names a) ∨ norm_target target = [] →
  valid_request a (norm_target target) fs →
  ∃ idx, get_indexer (var_names a) (norm_target target) = Some idx ∧
    perturb_genes l target factor copy h
    = if copy
      then (<[fresh (dom h) := perturbed a idx fs]> h, Return (VRef (fresh (dom h))))
      else (<[l := perturbed a idx fs]> h, Return VNone).
Proof using Hl Hfs.
  intros Hnames (Hlen & Hin & Hpos & Hnd).
  destruct (get_indexer_is_Some _ _ Hin) as [idx Hidx]. exists idx. split; [done|].
  unfold perturb_genes. rewrite Hfs.
  rewrite bool_decide_eq_false_2 by (intros ?; done).
  unfold mbind, M_bind, deref. rewrite Hl.
  assert (py_truthy (filter (λ t, t ∉ var_names a) (norm_target target)) = false) as ->.
  { apply py_truthy_filter_false. eapply Forall_impl; [exact Hin|]. intros t Ht Hn. exact (Hn Ht). }
  assert (py_truthy (filter (λ f, num_val f < 0)%Q fs) = false) as ->.
  { apply py_truthy_filter_false. eapply Forall_impl; [exact Hpos|].
    intros f Hf Hf'. exact (Qlt_not_le _ _ Hf' Hf). }
  rewrite bool_decide_eq_false_2 by (intros E; apply E; by apply length_size_NoDup).
  destruct copy.
  - unfold copy_obj, alloc, mbind, M_bind, mret, M_ret, deref. rewrite Hl. simpl.
    rewrite (getitem_cols_run _ _ a _ idx) by (done || apply lookup_insert_eq).
    unfold view_get_X, mbind, M_bind, mret, M_ret, deref. simpl.
    rewrite lookup_insert_eq.
    rewrite (getitem_cols_run _ _ a _ idx) by (done || apply lookup_insert_eq).
    unfold view_set_X, store, mbind, M_bind, deref. simpl.
    rewrite lookup_insert_eq, put_cols_perturb, insert_insert_eq. done.
  - unfold mbind, M_bind, mret, M_ret.
    rewrite (getitem_cols_run _ _ a _ idx) by done.
    unfold view_get_X, mbind, M_bind, mret, M_ret, deref. simpl. rewrite Hl.
    rewrite (getitem_cols_run _ _ a _ idx) by done.
    unfold view_set_X, store, mbind, M_bind, deref. simpl.
    rewrite Hl, put_cols_perturb. done.
Qed.

Lemma run_valid :
  NoDup (var_names a) →
  valid_request a (norm_target target) fs →
  ∃ idx, get_indexer (var_names a) (norm_target target) = Some idx ∧
    perturb_genes l target factor copy h
    = if copy
      then (<[fresh (dom h) := perturbed a idx fs]> h, Return (VRef (fresh (dom h))))
      else (<[l := perturbed a idx fs]> h, Return VNone).
Proof using Hl Hfs.
  intros Hnames. apply run_valid_gen. by left.
Qed.
End run.

(** ** Strings *)

Lemma append_assoc (s1 s2 s3 : string) : (s1 +:+ s2) +:+ s3 = s1 +:+ s2 +:+ s3.
Proof.
  induction s1 as [|c s1 IH]; [done|].
  change (String c ((s1 +:+ s2) +:+ s3) = String c (s1 +:+ s2 +:+ s3)).
  by rewrite IH.
Qed.

Lemma append_nil_r (s : string) : s +:+ "" = s.
Proof.
  induction s as [|c s IH]; [done|].
  change (String c (s +:+ "") = String c s). by rewrite IH.
Qed.

Lemma substring_of_refl (s : string) : substring_of s s.
Proof. exists "", "". cbn. by rewrite append_nil_r. Qed.

Lemma substring_of_trans (s1 s2 s3 : string) :
  substring_of s1 s2 → substring_of s2 s3 → substring_of s1 s3.
Proof.
  intros (p1 & q1 & ->) (p2 & q2 & ->). exists (p2 +:+ p1), (q1 +:+ q2).
  by rewrite !append_assoc.
Qed.

Lemma substring_of_app_l (s m pre : string) :
  substring_of s m → substring_of s (pre +:+ m).
Proof. intros (p & q & ->). exists (pre +:+ p), q. by rewrite append_assoc. Qed.

Lemma substring_of_app_r (s m post : string) :
  substring_of s m → substring_of s (m +:+ post).
Proof. intros (p & q & ->). exists p, (q +:+ post). by rewrite !append_assoc. Qed.

Lemma substring_of_cons (s m : string) (c : ascii) :
  substring_of s m → substring_of s (String c m).
Proof. apply (substring_of_app_l s m (String c "")). Qed.

Lemma join_contains (sep s : string) (l : list string) :
  s ∈ l → substring_of s (join sep l).
Proof.
  induction l as [|s0 l IH]; [by intros ?%elem_of_nil|].
  intros [->|Hin]%elem_of_cons.
  - destruct l; [apply substring_of_refl|]. apply substring_of_app_r, substring_of_refl.
  - destruct l as [|s1 l]; [by apply elem_of_nil in Hin|].
    change (join sep (s0 :: s1 :: l)) with (s0 +:+ sep +:+ join sep (s1 :: l)).
    by apply substring_of_app_l, substring_of_app_l, IH.
Qed.

Lemma repr_list_contains (t : string) (l : list string) :
  t ∈ l → substring_of (repr_str t) (repr_list l).
Proof.
  intros Hin. unfold repr_list.
  apply substring_of_app_l, substring_of_app_r, join_contains.
  by apply list_elem_of_fmap_2.
Qed.

Lemma has_char_plain (c : ascii) (s : string) :
  plain_char c = false → plain s = true → has_char c s = false.
Proof.
  intros Hc. induction s as [|c' s IH]; [done|]. simpl.
  intros [Hc' Hs]%andb_true_iff. destruct (decide (c' = c)) as [->|]; [congruence|auto].
Qed.

Lemma repr_char_plain (q c : ascii) :
  plain_char q = false → plain_char c = true → repr_char q c = String c "".
Proof.
  intros Hq Hc. assert (c ≠ q) as Hne by congruence.
  apply bool_decide_eq_true in Hc as (_ & Hb & H32 & H127 & H173).
  unfold repr_char.
  repeat (case_decide; [exfalso; try lia; by intuition|]). done.
Qed.

Lemma repr_body_plain (q : ascii) (s : string) :
  plain_char q = false → plain s = true → repr_body q s = s.
Proof.
  intros Hq. induction s as [|c s IH]; [done|]. simpl.
  intros [Hc Hs]%andb_true_iff. by rewrite repr_char_plain, IH.
Qed.

Lemma repr_str_plain (s : string) :
  plain s = true → repr_str s = String squote (s +:+ String squote "").
Proof.
  intros Hs. unfold repr_str, repr_quote.
  rewrite (has_char_plain squote s) by done. simpl.
  by rewrite repr_body_plain.
Qed.

Lemma repr_str_contains_plain (s : string) :
  plain s = true → substring_of s (repr_str s).
Proof.
  intros Hs. rewrite repr_str_plain by done.
  apply substring_of_cons, substring_of_app_r, substring_of_refl.
Qed.

(** The four messages differ, whatever their arguments. *)
Lemma error_of_inj (a : AnnData) (target : list string) (factor : list num) (c c' : check) :
  error_of c a target factor = error_of c' a target factor → c = c'.
Proof. destruct c, c'; try done; cbv -[pretty repr_list length take filter]; intros [=]. Qed.

(** ** The perturbed object *)

Lemma perturbed_rows (a : AnnData) (idx : list nat) (fs : list num) (r : nat)
    (row' : list Q) :
  X (perturbed a idx fs) !! r = Some row' ↔
  ∃ row, X a !! r = Some row ∧ row' = perturb_row idx fs row.
Proof.
  unfold perturbed. simpl. rewrite list_lookup_fmap, fmap_Some. naive_solver.
Qed.

Lemma run_valid_obj (h : gmap positive AnnData) (l : positive) (a : AnnData)
    (target : target_arg) (factor : factor_arg) (fs : list num) (copy : bool) :
  h !! l = Some a → NoDup (var_names a) → norm_factor factor = FSeq fs →
  valid_request a (norm_target target) fs →
  ∃ idx h' v,
    get_indexer (var_names a) (norm_target target) = Some idx ∧
    perturb_genes l target factor copy h = (h', Return v) ∧
    result_obj h' l v = Some (perturbed a idx fs).
Proof.
  intros Hl Hnames Hfs Hvalid.
  destruct (run_valid h l a target factor fs copy Hl Hfs Hnames Hvalid) as (idx & Hidx & Hrun).
  exists idx. destruct copy; (do 2 eexists; split; [done|]; split; [exact Hrun|]);
    simpl; apply lookup_insert_eq.
Qed.

(** ** Properties of a successful call *)

(** C3: after a valid request, every entry in a column whose label is not
    among the targets is the entry of the input matrix; the rows and the
    labels are those of the input. *)
Theorem C3_other_columns_unchanged (h : gmap positive AnnData) (l : positive)
    (a : AnnData) (target : target_arg) (factor : factor_arg) (fs : list num)
    (copy : bool) :
  h !! l = Some a → NoDup (var_names a) → norm_factor factor = FSeq fs →
  valid_request a (norm_target target) fs →
  ∃ h' v a',
    perturb_genes l target factor copy h = (h', Return v) ∧
    result_obj h' l v = Some a' ∧
    var_names a' = var_names a ∧
    length (X a') = length (X a) ∧
    ∀ r row', X a' !! r = Some row' →
      ∃ row, X a !! r = Some row ∧ length row' = length row ∧
        ∀ j, (∀ t, t ∈ norm_target target → var_names a !! j ≠ Some t) →
             row' !! j = row !! j.
Proof.
  intros Hl Hnames Hfs Hvalid.
  destruct (run_valid_obj h l a target factor fs copy) as (idx & h' & v & Hidx & Hrun & Hobj);
    [done..|].
  exists h', v, (perturbed a idx fs). split; [done|]. split; [done|]. split; [done|].
  split; [apply length_fmap|].
  intros r row' (row & Hr & ->)%perturbed_rows. exists row. split; [done|].
  split; [apply perturb_row_length|].
  intros j Hj. apply perturb_row_lookup_other. by eapply get_indexer_not_elem.
Qed.

(** ** Validation failures *)

Section violations.
Context (a : AnnData) (ts : list string) (fs : list num).

Lemma not_violates_length : ¬ violates LengthMismatch a ts fs → length ts = length fs.
Proof. simpl. intros H. destruct (decide (length ts = length fs)); [done|by destruct H]. Qed.

Lemma not_violates_unknown :
  ¬ violates UnknownTarget a ts fs → Forall (λ t, t ∈ var_names a) ts.
Proof.
  simpl. intros H. apply Forall_forall. intros t Ht.
  destruct (decide (t ∈ var_names a)); [done|]. destruct H. by exists t.
Qed.

Lemma not_violates_negative :
  ¬ violates NegativeFactor a ts fs → Forall (λ f, 0 <= num_val f)%Q fs.
Proof.
  simpl. intros H. apply Forall_forall. intros f Hf.
  apply Qnot_lt_le. intros Hlt. destruct H. by exists f.
Qed.

Lemma not_violates_duplicate : ¬ violates DuplicateTarget a ts fs → NoDup ts.
Proof. simpl. intros H. destruct (decide (NoDup ts)); [done|by destruct H]. Qed.

Global Instance violates_dec (c : check) : Decision (violates c a ts fs).
Proof.
  destruct c; simpl; [apply _| | |apply _].
  - destruct (decide (Forall (λ t, t ∈ var_names a) ts)) as [H|H].
    + right. intros (t & Ht & Hn). rewrite Forall_forall in H. by apply Hn, H.
    + left. apply not_Forall_Exists in H; [|apply _].
      by apply Exists_exists in H.
  - destruct (decide (Forall (λ f, ¬ (num_val f < 0)%Q) fs)) as [H|H].
    + right. intros (f & Hf & Hn). rewrite Forall_forall in H. by apply (H f).
    + left. apply not_Forall_Exists in H; [|apply _].
      apply Exists_exists in H as (f & Hf & Hn). exists f. split; [done|].
      by destruct (decide (num_val f < 0)%Q).
Defined.

(** Among the violated checks there is an earliest one. *)
Lemma first_violation :
  (∃ c, violates c a ts fs) →
  ∃ c, violates c a ts fs ∧
       ∀ c', check_rank c' < check_rank c → ¬ violates c' a ts fs.
Proof.
  intros [c0 Hc0].
  destruct (decide (violates LengthMismatch a ts fs)) as [H0|H0].
  { exists LengthMismatch. split; [done|]. intros []; simpl; lia. }
  destruct (decide (violates UnknownTarget a ts fs)) as [H1|H1].
  { exists UnknownTarget. split; [done|]. intros []; simpl; try lia; done. }
  destruct (decide (violates NegativeFactor a ts fs)) as [H2|H2].
  { exists NegativeFactor. split; [done|]. intros []; simpl; try lia; done. }
  exists DuplicateTarget. split; [by destruct c0|].
  intros []; simpl; try lia; done.
Qed.
End violations.

Lemma run_violation (h : gmap positive AnnData) (l : positive) (a : AnnData)
    (target : target_arg) (factor : factor_arg) (fs : list num) (copy : bool)
    (c : check) :
  h !! l = Some a → norm_factor factor = FSeq fs →
  violates c a (norm_target target) fs →
  (∀ c', check_rank c' < check_rank c → ¬ violates c' a (norm_target target) fs) →
  perturb_genes l target factor copy h
  = (h, Raise (error_of c a (norm_target target) fs)).
Proof.
  intros Hl Hfs Hc Hfirst. destruct c; simpl.
  - by apply run_length_mismatch.
  - eapply run_unknown_target; [done..| |done].
    apply not_violates_length with a, Hfirst. simpl. lia.
  - eapply run_negative_factor; [done..| | |done].
    + apply not_violates_length with a, Hfirst. simpl. lia.
    + apply not_violates_unknown with fs, Hfirst. simpl. lia.
  - eapply run_duplicate_target; [done..| | | |done].
    + apply not_violates_length with a, Hfirst. simpl. lia.
    + apply not_violates_unknown with fs, Hfirst. simpl. lia.
    + apply not_violates_negative with a (norm_target target), Hfirst. simpl. lia.
Qed.

(** C4: when one of the four checks fails on the targets and factors
    passed, the call raises an error and the store, with the caller's
    matrix in it, is what it was before the call, whatever the [copy]
    flag; when the factors reach the checks, the error is that of a
    violated check. *)
Theorem C4_failure_leaves_matrix (h : gmap positive AnnData) (l : positive)
    (a : AnnData) (target : target_arg) (factor : factor_arg) (copy : bool) :
  h !! l = Some a →
  (∃ c, violates c a (norm_target target) (factor_values factor)) →
  ∃ e,
    perturb_genes l target factor copy h = (h, Raise e) ∧
    ∀ fs, norm_factor factor = FSeq fs →
      ∃ c, violates c a (norm_target target) fs ∧
           e = error_of c a (norm_target target) fs.
Proof.
  intros Hl Hv.
  assert (∀ fs, norm_factor factor = FSeq fs → fs = factor_values factor) as Hvals.
  { intros fs. destruct factor as [[x|z]|fs']; simpl; congruence. }
  destruct (norm_factor factor) as [n|fs] eqn:Hfs.
  - destruct factor as [[x|z]|fs']; simplify_eq/=.
    exists (TypeError msg_no_len). split; [done|]. intros fs [=].
  - rewrite <- (Hvals fs eq_refl) in Hv.
    destruct (first_violation _ _ _ Hv) as (c & Hc & Hfirst).
    exists (error_of c a (norm_target target) fs).
    split; [by apply run_violation|].
    intros fs' [= <-]. by exists c.
Qed.

(** C8: the checks run in the order length mismatch, unknown target,
    negative factor, duplicate target: the error raised is that of the
    earliest violated check, and the four errors are told apart by their
    messages. *)
Theorem C8_check_order (h : gmap positive AnnData) (l : positive) (a : AnnData)
    (target : target_arg) (factor : factor_arg) (fs : list num) (copy : bool)
    (c : check) :
  h !! l = Some a → norm_factor factor = FSeq fs →
  violates c a (norm_target target) fs →
  (∀ c', check_rank c' < check_rank c → ¬ violates c' a (norm_target target) fs) →
  perturb_genes l target factor copy h
    = (h, Raise (error_of c a (norm_target target) fs)) ∧
  ∀ c', error_of c' a (norm_target target) fs = error_of c a (norm_target target) fs →
        c' = c.
Proof.
  intros Hl Hfs Hc Hfirst. split; [by apply run_violation|].
  intros c'. apply error_of_inj.
Qed.

(** ** Scalar arguments *)

Lemma scalar_target_normalized (h : gmap positive AnnData) (l : positive)
    (s : string) (factor : factor_arg) (copy : bool) :
  perturb_genes l (TStr s) factor copy h = perturb_genes l (TSeq [s]) factor copy h.
Proof. done. Qed.

Lemma scalar_float_factor_normalized (h : gmap positive AnnData) (l : positive)
    (target : target_arg) (x : Q) (copy : bool) :
  perturb_genes l target (FNum (PyFloat x)) copy h
  = perturb_genes l target (FSeq [PyFloat x]) copy h.
Proof. done. Qed.

Lemma scalar_int_factor_raises (h : gmap positive AnnData) (l : positive)
    (target : target_arg) (z : Z) (copy : bool) :
  perturb_genes l target (FNum (PyInt z)) copy h = (h, Raise (TypeError msg_no_len)).
Proof. done. Qed.

(** C5: a scalar factor that is a number but not a [float] is not turned
    into a sequence.  On the notebook's matrix the factor [2] for one gene
    ends in the [TypeError] of [len], where the sequence [[2]] doubles the
    gene's column. *)
Theorem C5_int_scalar_factor :
  perturb_genes 1 (TStr "ENSG00000078018") (FNum (PyInt 2)) false nb_heap
    = (nb_heap, Raise (TypeError msg_no_len)) ∧
  perturb_genes 1 (TStr "ENSG00000078018") (FSeq [PyInt 2]) false nb_heap
    = (<[1%positive := mkAnnData (var_names nb_adata) [[1; 26]; [0; 52]; [0; 2]]%Q]> nb_heap,
       Return VNone).
Proof. split; [done|]. vm_compute. done. Qed.

(** ** Zero, non-negative and unit factors *)

Lemma rint_zero_factor (x f : Q) : (f == 0)%Q → inject_Z (rint (x * f)) = 0%Q.
Proof.
  intros Hf. assert (x * f == inject_Z 0)%Q as E by (rewrite Hf; simpl; ring).
  by rewrite E, rint_inject_Z.
Qed.

Lemma rint_unit_factor (x f : Q) :
  (f == 1)%Q → integer_valued x → rint (x * f) = Qfloor x.
Proof.
  intros Hf Hx. unfold integer_valued in Hx.
  assert (x * f == inject_Z (Qfloor x))%Q as E by (rewrite Hf, Hx; ring).
  by rewrite E, rint_inject_Z.
Qed.

Lemma perturb_row_nonneg (idx : list nat) (fs : list num) (row : list Q) :
  Forall (λ f, 0 <= num_val f)%Q fs → Forall (λ x, 0 <= x)%Q row →
  Forall (λ x, 0 <= x)%Q (perturb_row idx fs row).
Proof.
  intros Hfs Hrow. apply Forall_lookup. intros j y Hy.
  rewrite Forall_lookup in Hrow. rewrite Forall_lookup in Hfs.
  destruct (perturb_row_lookup_cases idx fs row j) as [E|(i & f & x & Hi & Hf & Hx & E)].
  - rewrite E in Hy. by eapply Hrow.
  - rewrite E in Hy. simplify_eq.
    change 0%Q with (inject_Z 0). rewrite <- Zle_Qle. apply rint_nonneg.
    apply Qmult_le_0_compat; [by eapply Hrow|by eapply Hfs].
Qed.

Lemma perturb_row_unit (idx : list nat) (fs : list num) (row : list Q) :
  Forall (λ f, num_val f == 1)%Q fs → Forall integer_valued row →
  Forall2 Qeq (perturb_row idx fs row) row.
Proof.
  intros Hfs Hrow. apply Forall2_same_length_lookup.
  split; [apply perturb_row_length|]. intros j y x' Hy Hx'.
  rewrite Forall_lookup in Hrow. rewrite Forall_lookup in Hfs.
  destruct (perturb_row_lookup_cases idx fs row j) as [E|(i & f & x & Hi & Hf & Hx & E)].
  - rewrite E in Hy. by simplify_eq.
  - rewrite E in Hy. simplify_eq.
    rewrite rint_unit_factor; [|by eapply Hfs|by eapply Hrow].
    by eapply Hrow.
Qed.

Lemma perturb_row_unit_eq (idx : list nat) (fs : list num) (row : list Q) :
  Forall (λ f, num_val f == 1)%Q fs → Forall (λ x, Qden x = 1%positive) row →
  perturb_row idx fs row = row.
Proof.
  intros Hfs Hrow. apply list_eq. intros j.
  rewrite Forall_lookup in Hrow. rewrite Forall_lookup in Hfs.
  destruct (perturb_row_lookup_cases idx fs row j) as [E|(i & f & x & Hi & Hf & Hx & E)];
    [done|].
  rewrite E, Hx. f_equal. specialize (Hrow _ _ Hx). destruct x as [n d].
  simpl in Hrow. subst d.
  assert ((n # 1) * num_val f == inject_Z n)%Q as E'.
  { rewrite (Hfs _ _ Hf). unfold inject_Z. ring. }
  by rewrite E', rint_inject_Z.
Qed.

Lemma perturb_rows_unit_eq (idx : list nat) (fs : list num) (m : list (list Q)) :
  Forall (λ f, num_val f == 1)%Q fs → Forall (Forall (λ x, Qden x = 1%positive)) m →
  perturb_row idx fs <$> m = m.
Proof.
  intros Hfs Hm. induction Hm as [|row m Hrow Hm IH]; [done|].
  rewrite fmap_cons, IH. f_equal. by apply perturb_row_unit_eq.
Qed.

(** C6, as the code has it: once the lengths match and every target is a
    column label, the call raises the invalid-value error exactly when some
    factor is below zero; a factor equal to zero passes, and the call then
    leaves zero in every entry of that target's column. *)
Theorem C6_negative_factor (h : gmap positive AnnData) (l : positive) (a : AnnData)
    (target : target_arg) (factor : factor_arg) (fs : list num) (copy : bool) :
  h !! l = Some a → NoDup (var_names a) → norm_factor factor = FSeq fs →
  length (norm_target target) = length fs →
  Forall (λ t, t ∈ var_names a) (norm_target target) →
  ((perturb_genes l target factor copy h).2 = Raise (ValueError msg_negative)
     ↔ ∃ f, f ∈ fs ∧ (num_val f < 0)%Q) ∧
  (valid_request a (norm_target target) fs →
   ∃ h' v a',
     perturb_genes l target factor copy h = (h', Return v) ∧
     result_obj h' l v = Some a' ∧
     ∀ i t f j,
       norm_target target !! i = Some t → fs !! i = Some f → (num_val f == 0)%Q →
       var_names a !! j = Some t →
       ∀ r row' y, X a' !! r = Some row' → row' !! j = Some y → y = 0%Q).
Proof.
  intros Hl Hnames Hfs Hlen Hin. split.
  - split.
    + intros Hr.
      destruct (decide (violates NegativeFactor a (norm_target target) fs)) as [Hv|Hv];
        [done|exfalso].
      apply not_violates_negative in Hv.
      destruct (decide (NoDup (norm_target target))) as [Hnd|Hnd].
      * destruct (run_valid_obj h l a target factor fs copy)
          as (idx & h' & v & _ & Hrun & _); [done..|].
        by rewrite Hrun in Hr.
      * rewrite (run_duplicate_target h l a target factor fs copy) in Hr by done.
        simpl in Hr. by injection Hr.
    + intros Hneg. by rewrite (run_negative_factor h l a target factor fs copy).
  - intros Hvalid.
    destruct (run_valid_obj h l a target factor fs copy)
      as (idx & h' & v & Hidx & Hrun & Hobj); [done..|].
    exists h', v, (perturbed a idx fs). split; [done|]. split; [done|].
    intros i t f j Ht Hf Hzero Hj r row' y (row & Hr & ->)%perturbed_rows Hy.
    destruct (get_indexer_lookup _ _ _ _ _ Hidx Ht) as (j' & Hj' & Hio).
    rewrite (index_of_NoDup _ _ _ Hnames Hj) in Hio.
    assert (j' = j) as -> by congruence.
    assert (is_Some (row !! j)) as [x Hx].
    { apply lookup_lt_is_Some. rewrite <- (perturb_row_length idx fs row).
      by eapply lookup_lt_Some. }
    rewrite (perturb_row_lookup_target idx fs row i j f x) in Hy; [|try done..].
    + simplify_eq. by apply rint_zero_factor.
    + eapply get_indexer_NoDup; [done|]. apply Hvalid.
Qed.

(** C6 as stated fails: with one target and the factors [-1.0, 2.0] a
    factor is negative, yet the error is the length mismatch; and with a
    target given twice and the factors [1.0, 1.0] no factor is negative,
    yet the call raises a [ValueError]. *)
Lemma C6_counterexample :
  ((∃ f, f ∈ [PyFloat (-1); PyFloat 2] ∧ (num_val f < 0)%Q) ∧
   perturb_genes 1 (TSeq ["ENSG00000171532"]) (FSeq [PyFloat (-1); PyFloat 2]) false nb_heap
     = (nb_heap, Raise (ValueError (msg_length 1 2))) ∧
   ValueError (msg_length 1 2) ≠ ValueError msg_negative) ∧
  ((¬ ∃ f, f ∈ [PyFloat 1; PyFloat 1] ∧ (num_val f < 0)%Q) ∧
   perturb_genes 1 (TSeq ["ENSG00000171532"; "ENSG00000171532"])
       (FSeq [PyFloat 1; PyFloat 1]) false nb_heap
     = (nb_heap, Raise (ValueError msg_duplicate))).
Proof.
  split; [split; [|split]|split].
  - exists (PyFloat (-1)). split; [apply elem_of_cons; by left|done].
  - done.
  - by vm_compute.
  - intros (f & Hf & Hneg).
    apply elem_of_cons in Hf as [->|Hf]; [by vm_compute in Hneg|].
    apply elem_of_cons in Hf as [->|Hf]; [by vm_compute in Hneg|].
    by apply elem_of_nil in Hf.
  - by vm_compute.
Qed.

(** C9: on a matrix without negative entries a valid request, whose
    factors are not negative, yields a matrix without negative entries. *)
Theorem C9_counts_stay_nonnegative (h : gmap positive AnnData) (l : positive)
    (a : AnnData) (target : target_arg) (factor : factor_arg) (fs : list num)
    (copy : bool) :
  h !! l = Some a → NoDup (var_names a) → norm_factor factor = FSeq fs →
  valid_request a (norm_target target) fs →
  Forall (Forall (λ x, 0 <= x)%Q) (X a) →
  ∃ h' v a',
    perturb_genes l target factor copy h = (h', Return v) ∧
    result_obj h' l v = Some a' ∧
    Forall (Forall (λ x, 0 <= x)%Q) (X a').
Proof.
  intros Hl Hnames Hfs Hvalid Hpos.
  destruct (run_valid_obj h l a target factor fs copy)
    as (idx & h' & v & Hidx & Hrun & Hobj); [done..|].
  exists h', v, (perturbed a idx fs). split; [done|]. split; [done|].
  simpl. apply Forall_fmap. eapply Forall_impl; [exact Hpos|].
  intros row Hrow. apply perturb_row_nonneg; [apply Hvalid|done].
Qed.

(** C10: when every factor is 1 and the entries are counts, a valid
    request leaves every entry with its value; the object itself is the
    same when the counts are stored with denominator one. *)
Theorem C10_unit_factor_identity (h : gmap positive AnnData) (l : positive)
    (a : AnnData) (target : target_arg) (factor : factor_arg) (fs : list num)
    (copy : bool) :
  h !! l = Some a → NoDup (var_names a) → norm_factor factor = FSeq fs →
  valid_request a (norm_target target) fs →
  Forall (λ f, num_val f == 1)%Q fs →
  Forall (Forall integer_valued) (X a) →
  ∃ h' v a',
    perturb_genes l target factor copy h = (h', Return v) ∧
    result_obj h' l v = Some a' ∧
    var_names a' = var_names a ∧
    Forall2 (Forall2 Qeq) (X a') (X a) ∧
    (Forall (Forall (λ x, Qden x = 1%positive)) (X a) → a' = a).
Proof.
  intros Hl Hnames Hfs Hvalid Hone Hint.
  destruct (run_valid_obj h l a target factor fs copy)
    as (idx & h' & v & Hidx & Hrun & Hobj); [done..|].
  exists h', v, (perturbed a idx fs). split; [done|]. split; [done|]. split; [done|].
  split.
  - simpl. apply Forall2_fmap_l, Forall_Forall2_diag.
    eapply Forall_impl; [exact Hint|]. intros row Hrow. by apply perturb_row_unit.
  - intros Hden. unfold perturbed. rewrite perturb_rows_unit_eq by done.
    by destruct a.
Qed.

(** ** The theorems on the notebook's data *)

Ltac by_computation := apply (bool_decide_unpack _); vm_compute; exact I.

Lemma nb_lookup : nb_heap !! 1%positive = Some nb_adata.
Proof. reflexivity. Qed.

Lemma nb_var_names_NoDup : NoDup (var_names nb_adata).
Proof. by_computation. Qed.

Lemma nb_valid_request (f1 f2 : num) :
  (0 <= num_val f1)%Q → (0 <= num_val f2)%Q →
  valid_request nb_adata ["ENSG00000171532"; "ENSG00000078018"] [f1; f2].
Proof.
  intros H1 H2. split; [done|]. split; [|split].
  - repeat constructor.
  - by repeat constructor.
  - by_computation.
Qed.

Lemma nb_valid_request_single (f : num) :
  (0 <= num_val f)%Q → valid_request nb_adata ["ENSG00000078018"] [f].
Proof.
  intros Hf. split; [done|]. split; [|split].
  - repeat constructor.
  - by repeat constructor.
  - by_computation.
Qed.

(** The in-place call of the notebook and the counts it prints. *)
Example nb_call_in_place :
  perturb_genes 1 (TSeq ["ENSG00000171532"; "ENSG00000078018"])
    (FSeq [PyFloat 2; PyFloat (1 # 2)]) false nb_heap
  = ({[ 1%positive := mkAnnData (var_names nb_adata) [[2; 6]; [0; 13]; [0; 0]]%Q ]},
     Return VNone).
Proof. by vm_compute. Qed.

Lemma C3_witness :
  ∃ h' v a',
    perturb_genes 1 (TStr "ENSG00000078018") (FNum (PyFloat (1 # 2))) true nb_heap
      = (h', Return v) ∧
    result_obj h' 1 v = Some a' ∧
    var_names a' = var_names nb_adata ∧
    length (X a') = length (X nb_adata) ∧
    ∀ r row', X a' !! r = Some row' →
      ∃ row, X nb_adata !! r = Some row ∧ length row' = length row ∧
        ∀ j, (∀ t, t ∈ ["ENSG00000078018"] → var_names nb_adata !! j ≠ Some t) →
             row' !! j = row !! j.
Proof.
  apply (C3_other_columns_unchanged nb_heap 1 nb_adata (TStr "ENSG00000078018")
           (FNum (PyFloat (1 # 2))) [PyFloat (1 # 2)] true).
  - exact nb_lookup.
  - exact nb_var_names_NoDup.
  - reflexivity.
  - apply nb_valid_request_single; discriminate.
Defined.

Lemma C4_witness :
  ∃ e,
    perturb_genes 1 (TStr "ENSG00000078018") (FNum (PyFloat (-1))) true nb_heap
      = (nb_heap, Raise e) ∧
    ∀ fs, norm_factor (FNum (PyFloat (-1))) = FSeq fs →
      ∃ c, violates c nb_adata ["ENSG00000078018"] fs ∧
           e = error_of c nb_adata ["ENSG00000078018"] fs.
Proof.
  apply (C4_failure_leaves_matrix nb_heap 1 nb_adata (TStr "ENSG00000078018")
           (FNum (PyFloat (-1))) true).
  - exact nb_lookup.
  - exists NegativeFactor, (PyFloat (-1)). split; [apply elem_of_cons; by left|reflexivity].
Defined.

Lemma C6_witness :
  ((perturb_genes 1 (TSeq ["ENSG00000171532"; "ENSG00000078018"])
      (FSeq [PyFloat 0; PyFloat 2]) false nb_heap).2 = Raise (ValueError msg_negative)
     ↔ ∃ f, f ∈ [PyFloat 0; PyFloat 2] ∧ (num_val f < 0)%Q) ∧
  (valid_request nb_adata ["ENSG00000171532"; "ENSG00000078018"] [PyFloat 0; PyFloat 2] →
   ∃ h' v a',
     perturb_genes 1 (TSeq ["ENSG00000171532"; "ENSG00000078018"])
       (FSeq [PyFloat 0; PyFloat 2]) false nb_heap = (h', Return v) ∧
     result_obj h' 1 v = Some a' ∧
     ∀ i t f j,
       ["ENSG00000171532"; "ENSG00000078018"] !! i = Some t →
       [PyFloat 0; PyFloat 2] !! i = Some f → (num_val f == 0)%Q →
       var_names nb_adata !! j = Some t →
       ∀ r row' y, X a' !! r = Some row' → row' !! j = Some y → y = 0%Q).
Proof.
  apply (C6_negative_factor nb_heap 1 nb_adata
           (TSeq ["ENSG00000171532"; "ENSG00000078018"])
           (FSeq [PyFloat 0; PyFloat 2]) [PyFloat 0; PyFloat 2] false).
  - exact nb_lookup.
  - exact nb_var_names_NoDup.
  - reflexivity.
  - reflexivity.
  - by_computation.
Defined.

Lemma C8_witness :
  perturb_genes 1 (TSeq ["ENSG00000171532"; "ENSG00000171532"])
    (FSeq [PyFloat (-1); PyFloat 2]) false nb_heap
    = (nb_heap, Raise (ValueError msg_negative)) ∧
  ∀ c', error_of c' nb_adata ["ENSG00000171532"; "ENSG00000171532"]
          [PyFloat (-1); PyFloat 2] = ValueError msg_negative →
        c' = NegativeFactor.
Proof.
  apply (C8_check_order nb_heap 1 nb_adata
           (TSeq ["ENSG00000171532"; "ENSG00000171532"])
           (FSeq [PyFloat (-1); PyFloat 2]) [PyFloat (-1); PyFloat 2] false
           NegativeFactor).
  - exact nb_lookup.
  - reflexivity.
  - by_computation.
  - intros [] Hlt; try (simpl in Hlt; lia); by_computation.
Defined.

Lemma C9_witness :
  ∃ h' v a',
    perturb_genes 1 (TSeq ["ENSG00000171532"; "ENSG00000078018"])
      (FSeq [PyFloat 2; PyFloat (1 # 2)]) true nb_heap = (h', Return v) ∧
    result_obj h' 1 v = Some a' ∧
    Forall (Forall (λ x, 0 <= x)%Q) (X a').
Proof.
  apply (C9_counts_stay_nonnegative nb_heap 1 nb_adata
           (TSeq ["ENSG00000171532"; "ENSG00000078018"])
           (FSeq [PyFloat 2; PyFloat (1 # 2)]) [PyFloat 2; PyFloat (1 # 2)] true).
  - exact nb_lookup.
  - exact nb_var_names_NoDup.
  - reflexivity.
  - apply nb_valid_request; discriminate.
  - repeat constructor; discriminate.
Defined.

Lemma C10_witness :
  ∃ h' v a',
    perturb_genes 1 (TSeq ["ENSG00000171532"; "ENSG00000078018"])
      (FSeq [PyFloat 1; PyInt 1]) false nb_heap = (h', Return v) ∧
    result_obj h' 1 v = Some a' ∧
    var_names a' = var_names nb_adata ∧
    Forall2 (Forall2 Qeq) (X a') (X nb_adata) ∧
    (Forall (Forall (λ x, Qden x = 1%positive)) (X nb_adata) → a' = nb_adata).
Proof.
  apply (C10_unit_factor_identity nb_heap 1 nb_adata
           (TSeq ["ENSG00000171532"; "ENSG00000078018"])
           (FSeq [PyFloat 1; PyInt 1]) [PyFloat 1; PyInt 1] false).
  - exact nb_lookup.
  - exact nb_var_names_NoDup.
  - reflexivity.
  - apply nb_valid_request; discriminate.
  - repeat constructor.
  - repeat constructor.
Defined.

(** * Further properties of [perturb_genes] *)

(** ** The store *)

Global Instance valid_request_dec (a : AnnData) (ts : list string) (fs : list num) :
  Decision (valid_request a ts fs).
Proof.
  assert (∀ f, Decision (0 <= num_val f)%Q) as Hdec.
  { intros f. destruct (Qlt_le_dec (num_val f) 0) as [H|H]; [right|by left].
    intros H'. exact (Qlt_not_le _ _ H H'). }
  unfold valid_request. apply _.
Defined.

Lemma not_valid_violates (a : AnnData) (ts : list string) (fs : list num) :
  ¬ valid_request a ts fs → ∃ c, violates c a ts fs.
Proof.
  intros Hnv.
  destruct (decide (violates LengthMismatch a ts fs)); [by eexists|].
  destruct (decide (violates UnknownTarget a ts fs)); [by eexists|].
  destruct (decide (violates NegativeFactor a ts fs)); [by eexists|].
  destruct (decide (violates DuplicateTarget a ts fs)); [by eexists|].
  destruct Hnv. split; [by eapply not_violates_length|].
  split; [by eapply not_violates_unknown|].
  split; [by eapply not_violates_negative|by eapply not_violates_duplicate].
Qed.

(** What a call can do to the store: nothing, overwrite the caller's
    object on a successful in-place call, or add one object at a fresh
    reference when a copy was requested. *)
Lemma perturb_genes_store (h : gmap positive AnnData) (l : positive)
    (target : target_arg) (factor : factor_arg) (copy : bool) :
  (perturb_genes l target factor copy h).1 = h ∨
  (∃ a', perturb_genes l target factor copy h = (<[l := a']> h, Return VNone)) ∨
  (∃ a', is_Some (h !! l) ∧
         (perturb_genes l target factor copy h).1 = <[fresh (dom h) := a']> h).
Proof.
  destruct (norm_factor factor) as [n|fs] eqn:Hfs.
  { left. unfold perturb_genes. by rewrite Hfs. }
  destruct (h !! l) as [a|] eqn:Hl.
  2:{ left. unfold perturb_genes. rewrite Hfs. case_bool_decide; [done|].
      unfold mbind, M_bind, deref. by rewrite Hl. }
  destruct (decide (valid_request a (norm_target target) fs)) as [Hvalid|Hnv].
  2:{ left. apply not_valid_violates, first_violation in Hnv as (c & Hc & Hfirst).
      by rewrite (run_violation h l a target factor fs copy c). }
  destruct (decide (NoDup (var_names a) ∨ norm_target target = [])) as [Hnames|Hnames].
  { destruct (run_valid_gen h l a target factor fs copy Hl Hfs Hnames Hvalid)
      as (idx & _ & Hrun).
    rewrite Hrun. destruct copy; [right; right|right; left]; eauto. }
  assert (¬ NoDup (var_names a)) as Hnames' by tauto.
  assert (norm_target target ≠ []) as Hne by tauto.
  clear Hnames. rename Hnames' into Hnames.
  destruct (norm_target target) as [|t ts] eqn:Hts; [done|].
  destruct Hvalid as (Hlen & Hin & Hpos & Hnd).
  unfold perturb_genes. rewrite Hfs, Hts.
  rewrite bool_decide_eq_false_2 by (intros ?; done).
  unfold mbind, M_bind, deref. rewrite Hl.
  assert (py_truthy (filter (λ t, t ∉ var_names a) (t :: ts)) = false) as ->.
  { apply py_truthy_filter_false. eapply Forall_impl; [exact Hin|].
    intros t' Ht Hn. exact (Hn Ht). }
  assert (py_truthy (filter (λ f, num_val f < 0)%Q fs) = false) as ->.
  { apply py_truthy_filter_false. eapply Forall_impl; [exact Hpos|].
    intros f Hf Hf'. exact (Qlt_not_le _ _ Hf' Hf). }
  rewrite bool_decide_eq_false_2 by (intros E; apply E; by apply length_size_NoDup).
  destruct copy.
  - right; right. exists a. split; [done|].
    unfold copy_obj, alloc, getitem_cols, mbind, M_bind, mret, M_ret, deref, raise.
    rewrite Hl. simpl. rewrite lookup_insert_eq.
    by rewrite (bool_decide_eq_false_2 _ Hnames).
  - left. unfold getitem_cols, mbind, M_bind, mret, M_ret, deref, raise.
    simpl. rewrite Hl. by rewrite (bool_decide_eq_false_2 _ Hnames).
Qed.

Lemma fresh_lookup_ne (h : gmap positive AnnData) (l : positive) :
  is_Some (h !! l) → l ≠ fresh (dom h).
Proof.
  intros Hl E. apply (is_fresh (dom h)). rewrite <- E. by apply elem_of_dom.
Qed.

(** X2: when the call raises, whichever exception it is, every object that
    was in the store is still there with its contents, the caller's matrix
    included. *)
Theorem X2_any_exception_leaves_objects (h : gmap positive AnnData) (l l2 : positive)
    (b : AnnData) (target : target_arg) (factor : factor_arg) (copy : bool) (e : exn) :
  h !! l2 = Some b →
  (perturb_genes l target factor copy h).2 = Raise e →
  (perturb_genes l target factor copy h).1 !! l2 = Some b.
Proof.
  intros Hb Hr.
  destruct (perturb_genes_store h l target factor copy) as [E|[[a' E]|(a' & _ & E)]].
  - by rewrite E.
  - by rewrite E in Hr.
  - rewrite E, lookup_insert_ne; [done|]. apply not_eq_sym, fresh_lookup_ne. by eexists.
Qed.

(** ** Counts *)

Lemma rint_monotone (x y : Q) : (x <= y)%Q → (rint x <= rint y)%Z.
Proof.
  intros Hxy.
  destruct (Qeq_dec x y) as [E|Hne]; [by rewrite E|].
  assert (x < y)%Q as Hlt by (apply Qle_lteq in Hxy as [?|?]; done).
  pose proof (rint_error x) as Hx. pose proof (rint_error y) as Hy.
  apply Qabs_Qle_condition in Hx as [Hx1 Hx2].
  apply Qabs_Qle_condition in Hy as [Hy1 Hy2].
  destruct (Z_lt_le_dec (rint y) (rint x)) as [Hgt|]; [exfalso|done].
  assert (inject_Z (rint y) + 1 <= inject_Z (rint x))%Q as Hk.
  { change 1%Q with (inject_Z 1). rewrite <- inject_Z_plus, <- Zle_Qle. lia. }
  lra.
Qed.

Lemma integer_valued_inject_Z (z : Z) : integer_valued (inject_Z z).
Proof. unfold integer_valued. by rewrite Qfloor_Z. Qed.

Lemma integer_valued_rint (x : Q) : integer_valued x → inject_Z (rint x) == x.
Proof.
  intros Hx. unfold integer_valued in Hx.
  rewrite <- Hx at 1. by rewrite rint_inject_Z.
Qed.

Lemma perturb_row_integer (idx : list nat) (fs : list num) (row : list Q) :
  Forall integer_valued row → Forall integer_valued (perturb_row idx fs row).
Proof.
  intros Hrow. apply Forall_lookup. intros j y Hy.
  rewrite Forall_lookup in Hrow.
  destruct (perturb_row_lookup_cases idx fs row j) as [E|(i & f & x & Hi & Hf & Hx & E)];
    rewrite E in Hy.
  - by eapply Hrow.
  - simplify_eq. apply integer_valued_inject_Z.
Qed.

(** The entries of a targeted column after a valid call, one row at a
    time. *)
Lemma target_entry (names ts : list string) (idx : list nat) (fs : list num)
    (row : list Q) (i j : nat) (t : string) (f : num) (x : Q) :
  NoDup names → NoDup ts → get_indexer names ts = Some idx →
  ts !! i = Some t → fs !! i = Some f → names !! j = Some t → row !! j = Some x →
  perturb_row idx fs row !! j = Some (inject_Z (rint (x * num_val f))).
Proof.
  intros Hnames Hnd Hidx Ht Hf Hj Hx.
  destruct (get_indexer_lookup _ _ _ _ _ Hidx Ht) as (j' & Hj' & Hio).
  rewrite (index_of_NoDup _ _ _ Hnames Hj) in Hio.
  assert (j' = j) as -> by congruence.
  apply (perturb_row_lookup_target _ _ _ i); [|done..].
  by eapply get_indexer_NoDup.
Qed.

(** X4: the call rounds back to integers: after a valid request every
    entry of a targeted column is a whole number, whatever the input held,
    and a matrix of whole numbers stays one. *)
Theorem X4_counts_stay_whole (h : gmap positive AnnData) (l : positive) (a : AnnData)
    (target : target_arg) (factor : factor_arg) (fs : list num) (copy : bool) :
  h !! l = Some a → NoDup (var_names a) → norm_factor factor = FSeq fs →
  valid_request a (norm_target target) fs →
  ∃ h' v a',
    perturb_genes l target factor copy h = (h', Return v) ∧
    result_obj h' l v = Some a' ∧
    (∀ t j r row' y,
       t ∈ norm_target target → var_names a !! j = Some t →
       X a' !! r = Some row' → row' !! j = Some y → integer_valued y) ∧
    (Forall (Forall integer_valued) (X a) → Forall (Forall integer_valued) (X a')).
Proof.
  intros Hl Hnames Hfs Hvalid.
  destruct (run_valid_obj h l a target factor fs copy)
    as (idx & h' & v & Hidx & Hrun & Hobj); [done..|].
  exists h', v, (perturbed a idx fs). split; [done|]. split; [done|]. split.
  - intros t j r row' y [i Ht]%list_elem_of_lookup Hj (row & Hr & ->)%perturbed_rows Hy.
    assert (is_Some (row !! j)) as [x Hx].
    { apply lookup_lt_is_Some. rewrite <- (perturb_row_length idx fs row).
      by eapply lookup_lt_Some. }
    assert (is_Some (fs !! i)) as [f Hf].
    { apply lookup_lt_is_Some. destruct Hvalid as [<- _]. by eapply lookup_lt_Some. }
    rewrite (target_entry (var_names a) (norm_target target) idx fs row i j t f x) in Hy;
      [|done|apply Hvalid|done..].
    simplify_eq. apply integer_valued_inject_Z.
  - intros Hint. simpl. apply Forall_fmap. eapply Forall_impl; [exact Hint|].
    intros row Hrow. by apply perturb_row_integer.
Qed.

(** X5: on whole, non-negative counts a factor of at most 1 never raises a
    count and a factor of at least 1 never lowers one. *)
Theorem X5_direction_of_change (h : gmap positive AnnData) (l : positive)
    (a : AnnData) (target : target_arg) (factor : factor_arg) (fs : list num)
    (copy : bool) :
  h !! l = Some a → NoDup (var_names a) → norm_factor factor = FSeq fs →
  valid_request a (norm_target target) fs →
  ∃ h' v a',
    perturb_genes l target factor copy h = (h', Return v) ∧
    result_obj h' l v = Some a' ∧
    ∀ i t f j r row x,
      norm_target target !! i = Some t → fs !! i = Some f →
      var_names a !! j = Some t → X a !! r = Some row → row !! j = Some x →
      integer_valued x → (0 <= x)%Q →
      ∃ row' y, X a' !! r = Some row' ∧ row' !! j = Some y ∧
        ((num_val f <= 1)%Q → (y <= x)%Q) ∧ ((1 <= num_val f)%Q → (x <= y)%Q).
Proof.
  intros Hl Hnames Hfs Hvalid.
  destruct (run_valid_obj h l a target factor fs copy)
    as (idx & h' & v & Hidx & Hrun & Hobj); [done..|].
  exists h', v, (perturbed a idx fs). split; [done|]. split; [done|].
  intros i t f j r row x Ht Hf Hj Hr Hx Hint Hpos.
  exists (perturb_row idx fs row), (inject_Z (rint (x * num_val f))).
  split; [apply perturbed_rows; eauto|].
  split; [eapply target_entry; [done|apply Hvalid|done..]|].
  pose proof (integer_valued_rint x Hint) as Hrx.
  split; intros Hf1.
  - assert (inject_Z (rint (x * num_val f)) <= inject_Z (rint x))%Q as H.
    { rewrite <- Zle_Qle. apply rint_monotone.
      pose proof (Qmult_le_compat_r _ _ x Hf1 Hpos). lra. }
    by rewrite Hrx in H.
  - assert (inject_Z (rint x) <= inject_Z (rint (x * num_val f)))%Q as H.
    { rewrite <- Zle_Qle. apply rint_monotone.
      pose proof (Qmult_le_compat_r _ _ x Hf1 Hpos). lra. }
    by rewrite Hrx in H.
Qed.

(** X6: within a targeted column the order of the cells is kept: a cell
    that held no more than another holds no more than it afterwards. *)
Theorem X6_column_order_kept (h : gmap positive AnnData) (l : positive)
    (a : AnnData) (target : target_arg) (factor : factor_arg) (fs : list num)
    (copy : bool) :
  h !! l = Some a → NoDup (var_names a) → norm_factor factor = FSeq fs →
  valid_request a (norm_target target) fs →
  ∃ h' v a',
    perturb_genes l target factor copy h = (h', Return v) ∧
    result_obj h' l v = Some a' ∧
    ∀ t j r1 r2 row1 row2 x1 x2,
      t ∈ norm_target target → var_names a !! j = Some t →
      X a !! r1 = Some row1 → row1 !! j = Some x1 →
      X a !! r2 = Some row2 → row2 !! j = Some x2 → (x1 <= x2)%Q →
      ∃ row1' row2' y1 y2,
        X a' !! r1 = Some row1' ∧ row1' !! j = Some y1 ∧
        X a' !! r2 = Some row2' ∧ row2' !! j = Some y2 ∧ (y1 <= y2)%Q.
Proof.
  intros Hl Hnames Hfs Hvalid.
  destruct (run_valid_obj h l a target factor fs copy)
    as (idx & h' & v & Hidx & Hrun & Hobj); [done..|].
  exists h', v, (perturbed a idx fs). split; [done|]. split; [done|].
  intros t j r1 r2 row1 row2 x1 x2 [i Ht]%list_elem_of_lookup Hj Hr1 Hx1 Hr2 Hx2 Hle.
  assert (is_Some (fs !! i)) as [f Hf].
  { apply lookup_lt_is_Some. destruct Hvalid as [<- _]. by eapply lookup_lt_Some. }
  exists (perturb_row idx fs row1), (perturb_row idx fs row2),
    (inject_Z (rint (x1 * num_val f))), (inject_Z (rint (x2 * num_val f))).
  split; [apply perturbed_rows; eauto|].
  split; [eapply target_entry; [done|apply Hvalid|done..]|].
  split; [apply perturbed_rows; eauto|].
  split; [eapply target_entry; [done|apply Hvalid|done..]|].
  rewrite <- Zle_Qle. apply rint_monotone, Qmult_le_compat_r; [done|].
  destruct Hvalid as (_ & _ & Hpos & _). rewrite Forall_lookup in Hpos. by eapply Hpos.
Qed.

(** X7: a zero stays a zero: after a valid request every cell that held
    zero holds zero, in targeted and other columns alike. *)
Theorem X7_zeros_kept (h : gmap positive AnnData) (l : positive) (a : AnnData)
    (target : target_arg) (factor : factor_arg) (fs : list num) (copy : bool) :
  h !! l = Some a → NoDup (var_names a) → norm_factor factor = FSeq fs →
  valid_request a (norm_target target) fs →
  ∃ h' v a',
    perturb_genes l target factor copy h = (h', Return v) ∧
    result_obj h' l v = Some a' ∧
    ∀ r row j x, X a !! r = Some row → row !! j = Some x → (x == 0)%Q →
      ∃ row' y, X a' !! r = Some row' ∧ row' !! j = Some y ∧ (y == 0)%Q.
Proof.
  intros Hl Hnames Hfs Hvalid.
  destruct (run_valid_obj h l a target factor fs copy)
    as (idx & h' & v & Hidx & Hrun & Hobj); [done..|].
  exists h', v, (perturbed a idx fs). split; [done|]. split; [done|].
  intros r row j x Hr Hx Hzero. exists (perturb_row idx fs row).
  destruct (perturb_row_lookup_cases idx fs row j) as [E|(i & f & x' & Hi & Hf & Hx' & E)].
  - exists x. split; [apply perturbed_rows; eauto|]. by rewrite E.
  - exists (inject_Z (rint (x' * num_val f))). split; [apply perturbed_rows; eauto|].
    split; [done|]. simplify_eq.
    assert (x * num_val f == inject_Z 0)%Q as E' by (rewrite Hzero; simpl; ring).
    by rewrite E', rint_inject_Z.
Qed.

(** ** Requests compared and composed *)

Lemma perturb_row_lookup_None (idx : list nat) (fs : list num) (row : list Q) (j : nat) :
  row !! j = None → perturb_row idx fs row !! j = None.
Proof.
  intros H. apply lookup_ge_None. rewrite perturb_row_length. by apply lookup_ge_None.
Qed.

Lemma elem_of_zip_lookup {A B} (l : list A) (k : list B) (x : A) (y : B) :
  (x, y) ∈ zip l k ↔ ∃ i, l !! i = Some x ∧ k !! i = Some y.
Proof.
  rewrite list_elem_of_lookup. setoid_rewrite lookup_zip_with_Some. split.
  - intros (i & x' & y' & [= <- <-] & Hx & Hy). by exists i.
  - intros (i & Hx & Hy). exists i, x, y. done.
Qed.

(** The column written and its factor, in terms of the request. *)
Lemma indexed_pairs (names ts : list string) (idx : list nat) (fs : list num)
    (j : nat) (f : num) :
  get_indexer names ts = Some idx →
  (∃ i, idx !! i = Some j ∧ fs !! i = Some f)
  ↔ ∃ t, index_of names t = Some j ∧ (t, f) ∈ zip ts fs.
Proof.
  intros Hidx. setoid_rewrite elem_of_zip_lookup. split.
  - intros (i & Hi & Hf).
    apply mapM_Some in Hidx. eapply Forall2_lookup_r in Hidx as (t & Ht & E); [|done].
    exists t. split; [done|]. by exists i.
  - intros (t & Hio & i & Ht & Hf).
    destruct (get_indexer_lookup _ _ _ _ _ Hidx Ht) as (j' & Hj' & Hio').
    exists i. split; [congruence|done].
Qed.

Lemma perturb_row_same_pairs (idx idx' : list nat) (fs fs' : list num) (row : list Q) :
  NoDup idx → NoDup idx' → length idx = length fs → length idx' = length fs' →
  (∀ j f, (∃ i, idx !! i = Some j ∧ fs !! i = Some f)
          ↔ (∃ i, idx' !! i = Some j ∧ fs' !! i = Some f)) →
  perturb_row idx fs row = perturb_row idx' fs' row.
Proof.
  intros Hnd Hnd' Hlen Hlen' Hsame. apply list_eq. intros j.
  destruct (row !! j) as [x|] eqn:Hx; [|by rewrite !perturb_row_lookup_None].
  destruct (decide (j ∈ idx)) as [Hin|Hnin].
  - apply list_elem_of_lookup in Hin as [i Hi].
    assert (is_Some (fs !! i)) as [f Hf].
    { apply lookup_lt_is_Some. rewrite <- Hlen. by eapply lookup_lt_Some. }
    destruct (proj1 (Hsame j f)) as (i' & Hi' & Hf'); [by exists i|].
    rewrite (perturb_row_lookup_target idx fs row i j f x) by done.
    by rewrite (perturb_row_lookup_target idx' fs' row i' j f x).
  - assert (j ∉ idx') as Hnin'.
    { intros [i' Hi']%list_elem_of_lookup.
      assert (is_Some (fs' !! i')) as [f Hf'].
      { apply lookup_lt_is_Some. rewrite <- Hlen'. by eapply lookup_lt_Some. }
      destruct (proj2 (Hsame j f)) as (i & Hi & _); [by exists i'|].
      apply Hnin, list_elem_of_lookup. by exists i. }
    by rewrite !perturb_row_lookup_other.
Qed.

(** X8: only the pairing of targets with factors matters, not the order
    in which the pairs are listed: two valid requests with the same pairs
    leave the same store and return the same value. *)
Theorem X8_order_of_pairs_irrelevant (h : gmap positive AnnData) (l : positive)
    (a : AnnData) (ts ts' : list string) (fs fs' : list num) (copy : bool) :
  h !! l = Some a → NoDup (var_names a) →
  valid_request a ts fs → valid_request a ts' fs' →
  zip ts fs ≡ₚ zip ts' fs' →
  perturb_genes l (TSeq ts) (FSeq fs) copy h
  = perturb_genes l (TSeq ts') (FSeq fs') copy h.
Proof.
  intros Hl Hnames Hvalid Hvalid' Hperm.
  destruct (run_valid h l a (TSeq ts) (FSeq fs) fs copy Hl eq_refl Hnames Hvalid)
    as (idx & Hidx & ->).
  destruct (run_valid h l a (TSeq ts') (FSeq fs') fs' copy Hl eq_refl Hnames Hvalid')
    as (idx' & Hidx' & ->).
  simpl in Hidx, Hidx'.
  assert (perturbed a idx fs = perturbed a idx' fs') as ->; [|done].
  unfold perturbed. f_equal. apply list_fmap_ext. intros _ row _.
  destruct Hvalid as (Hlen & _ & _ & Hnd), Hvalid' as (Hlen' & _ & _ & Hnd').
  apply perturb_row_same_pairs.
  - by eapply get_indexer_NoDup.
  - by eapply get_indexer_NoDup.
  - by rewrite (get_indexer_length _ _ _ Hidx).
  - by rewrite (get_indexer_length _ _ _ Hidx').
  - intros j f. rewrite (indexed_pairs _ _ _ _ _ _ Hidx), (indexed_pairs _ _ _ _ _ _ Hidx').
    by setoid_rewrite Hperm.
Qed.

(** ** The further properties on the notebook's data *)

Lemma nb_valid_request_swapped (f1 f2 : num) :
  (0 <= num_val f1)%Q → (0 <= num_val f2)%Q →
  valid_request nb_adata ["ENSG00000078018"; "ENSG00000171532"] [f1; f2].
Proof.
  intros H1 H2. split; [done|]. split; [|split].
  - repeat constructor.
  - by repeat constructor.
  - by_computation.
Qed.

Lemma X2_witness :
  (perturb_genes 1 (TStr "ENSG00000078018") (FNum (PyFloat (-1))) true nb_heap).1
    !! 1%positive = Some nb_adata.
Proof.
  apply (X2_any_exception_leaves_objects nb_heap 1 1 nb_adata (TStr "ENSG00000078018")
           (FNum (PyFloat (-1))) true (ValueError msg_negative)).
  - exact nb_lookup.
  - reflexivity.
Defined.

Lemma X4_witness :
  ∃ h' v a',
    perturb_genes 1 (TSeq ["ENSG00000171532"; "ENSG00000078018"])
      (FSeq [PyFloat 2; PyFloat (1 # 2)]) false nb_heap = (h', Return v) ∧
    result_obj h' 1 v = Some a' ∧
    (∀ t j r row' y,
       t ∈ ["ENSG00000171532"; "ENSG00000078018"] → var_names nb_adata !! j = Some t →
       X a' !! r = Some row' → row' !! j = Some y → integer_valued y) ∧
    (Forall (Forall integer_valued) (X nb_adata) → Forall (Forall integer_valued) (X a')).
Proof.
  apply (X4_counts_stay_whole nb_heap 1 nb_adata
           (TSeq ["ENSG00000171532"; "ENSG00000078018"])
           (FSeq [PyFloat 2; PyFloat (1 # 2)]) [PyFloat 2; PyFloat (1 # 2)] false).
  - exact nb_lookup.
  - exact nb_var_names_NoDup.
  - reflexivity.
  - apply nb_valid_request; discriminate.
Defined.

Lemma X5_witness :
  ∃ h' v a',
    perturb_genes 1 (TSeq ["ENSG00000171532"; "ENSG00000078018"])
      (FSeq [PyFloat 2; PyFloat (1 # 2)]) false nb_heap = (h', Return v) ∧
    result_obj h' 1 v = Some a' ∧
    ∀ i t f j r row x,
      ["ENSG00000171532"; "ENSG00000078018"] !! i = Some t →
      [PyFloat 2; PyFloat (1 # 2)] !! i = Some f →
      var_names nb_adata !! j = Some t → X nb_adata !! r = Some row → row !! j = Some x →
      integer_valued x → (0 <= x)%Q →
      ∃ row' y, X a' !! r = Some row' ∧ row' !! j = Some y ∧
        ((num_val f <= 1)%Q → (y <= x)%Q) ∧ ((1 <= num_val f)%Q → (x <= y)%Q).
Proof.
  apply (X5_direction_of_change nb_heap 1 nb_adata
           (TSeq ["ENSG00000171532"; "ENSG00000078018"])
           (FSeq [PyFloat 2; PyFloat (1 # 2)]) [PyFloat 2; PyFloat (1 # 2)] false).
  - exact nb_lookup.
  - exact nb_var_names_NoDup.
  - reflexivity.
  - apply nb_valid_request; discriminate.
Defined.

Lemma X6_witness :
  ∃ h' v a',
    perturb_genes 1 (TSeq ["ENSG00000171532"; "ENSG00000078018"])
      (FSeq [PyFloat 2; PyFloat (1 # 2)]) false nb_heap = (h', Return v) ∧
    result_obj h' 1 v = Some a' ∧
    ∀ t j r1 r2 row1 row2 x1 x2,
      t ∈ ["ENSG00000171532"; "ENSG00000078018"] → var_names nb_adata !! j = Some t →
      X nb_adata !! r1 = Some row1 → row1 !! j = Some x1 →
      X nb_adata !! r2 = Some row2 → row2 !! j = Some x2 → (x1 <= x2)%Q →
      ∃ row1' row2' y1 y2,
        X a' !! r1 = Some row1' ∧ row1' !! j = Some y1 ∧
        X a' !! r2 = Some row2' ∧ row2' !! j = Some y2 ∧ (y1 <= y2)%Q.
Proof.
  apply (X6_column_order_kept nb_heap 1 nb_adata
           (TSeq ["ENSG00000171532"; "ENSG00000078018"])
           (FSeq [PyFloat 2; PyFloat (1 # 2)]) [PyFloat 2; PyFloat (1 # 2)] false).
  - exact nb_lookup.
  - exact nb_var_names_NoDup.
  - reflexivity.
  - apply nb_valid_request; discriminate.
Defined.

Lemma X7_witness :
  ∃ h' v a',
    perturb_genes 1 (TSeq ["ENSG00000171532"; "ENSG00000078018"])
      (FSeq [PyFloat 2; PyFloat (1 # 2)]) true nb_heap = (h', Return v) ∧
    result_obj h' 1 v = Some a' ∧
    ∀ r row j x, X nb_adata !! r = Some row → row !! j = Some x → (x == 0)%Q →
      ∃ row' y, X a' !! r = Some row' ∧ row' !! j = Some y ∧ (y == 0)%Q.
Proof.
  apply (X7_zeros_kept nb_heap 1 nb_adata
           (TSeq ["ENSG00000171532"; "ENSG00000078018"])
           (FSeq [PyFloat 2; PyFloat (1 # 2)]) [PyFloat 2; PyFloat (1 # 2)] true).
  - exact nb_lookup.
  - exact nb_var_names_NoDup.
  - reflexivity.
  - apply nb_valid_request; discriminate.
Defined.

Lemma X8_witness :
  perturb_genes 1 (TSeq ["ENSG00000171532"; "ENSG00000078018"])
    (FSeq [PyFloat 2; PyFloat (1 # 2)]) false nb_heap
  = perturb_genes 1 (TSeq ["ENSG00000078018"; "ENSG00000171532"])
      (FSeq [PyFloat (1 # 2); PyFloat 2]) false nb_heap.
Proof.
  apply (X8_order_of_pairs_irrelevant nb_heap 1 nb_adata
           ["ENSG00000171532"; "ENSG00000078018"] ["ENSG00000078018"; "ENSG00000171532"]
           [PyFloat 2; PyFloat (1 # 2)] [PyFloat (1 # 2); PyFloat 2] false).
  - exact nb_lookup.
  - exact nb_var_names_NoDup.
  - apply nb_valid_request; discriminate.
  - apply nb_valid_request_swapped; discriminate.
  - apply perm_swap.
Defined.


(** * Floating-point arithmetic *)

Lemma pow2_pos (e : Z) : (0 < pow2 e)%Q.
Proof. by apply Qpower_0_lt. Qed.

Lemma pow2_plus (n m : Z) : (pow2 (n + m) == pow2 n * pow2 m)%Q.
Proof. by apply Qpower_plus. Qed.

Lemma pow2_opp_r (e : Z) : (pow2 e * pow2 (- e) == 1)%Q.
Proof. rewrite <- pow2_plus, Z.add_opp_diag_r. reflexivity. Qed.

Lemma pow2_inject_Z (e : Z) : (0 ≤ e)%Z → (pow2 e == inject_Z (2 ^ e))%Q.
Proof. intros He. unfold pow2. by rewrite Zpower_Qpower. Qed.

Lemma pow2_lt_inv (n m : Z) : (pow2 n < pow2 m)%Q → (n < m)%Z.
Proof. intros H. by apply (Qpower_lt_compat_l_inv 2). Qed.

Lemma pow2_le (n m : Z) : (n ≤ m)%Z → (pow2 n <= pow2 m)%Q.
Proof. intros H. by apply Qpower_le_compat_l. Qed.

Lemma Qabs_make (n : Z) (d : positive) : Qabs (n # d) = (Z.abs n # d).
Proof. reflexivity. Qed.

Lemma Qabs_inject_Z (m : Z) : Qabs (inject_Z m) = inject_Z (Z.abs m).
Proof. reflexivity. Qed.

Lemma ilog2_le (q : Q) : ¬ (q == 0)%Q → (pow2 (ilog2 q) <= Qabs q)%Q.
Proof.
  intros Hq. unfold ilog2.
  destruct (Qle_bool _ _) eqn:E; [by apply Qle_bool_iff|]. clear E.
  destruct q as [n d]. unfold Qnum, Qden. rewrite Qabs_make.
  assert (n ≠ 0%Z) as Hn.
  { intros ->. apply Hq. reflexivity. }
  pose proof (Z.log2_spec (Z.abs n) ltac:(lia)) as [Hlo _].
  pose proof (Z.log2_spec (Z.pos d) ltac:(lia)) as [_ Hhi].
  pose proof (Z.log2_nonneg (Z.abs n)) as Hn0.
  pose proof (Z.log2_nonneg (Z.pos d)) as Hd0.
  set (ln := Z.log2 (Z.abs n)) in *. set (ld := Z.log2 (Z.pos d)) in *.
  assert (pow2 (ln - ld - 1) == inject_Z (2 ^ ln) / inject_Z (2 ^ (ld + 1)))%Q as ->.
  { replace (ln - ld - 1)%Z with (ln - (ld + 1))%Z by lia.
    unfold pow2. rewrite Qpower_minus by done.
    by rewrite !Zpower_Qpower by lia. }
  rewrite (Qmake_Qdiv (Z.abs n) d).
  assert (0 < inject_Z (2 ^ (ld + 1)))%Q as Hp1.
  { change 0%Q with (inject_Z 0). rewrite <- Zlt_Qlt. lia. }
  assert (0 < inject_Z (Z.pos d))%Q as Hp2.
  { change 0%Q with (inject_Z 0). rewrite <- Zlt_Qlt. lia. }
  apply Qle_shift_div_l; [done|]. unfold Qdiv.
  rewrite <- Qmult_assoc, (Qmult_comm (/ _)), Qmult_assoc.
  apply Qle_shift_div_r; [done|].
  rewrite <- !inject_Z_mult, <- Zle_Qle. nia.
Qed.

(** ** Rounding leaves the representable numbers alone *)

Lemma fl_exact (prec emin m k : Z) (q : Q) :
  (Z.abs m < 2 ^ prec)%Z → (0 ≤ prec)%Z → (emin ≤ k)%Z →
  (q == inject_Z m * pow2 k)%Q → (fl prec emin q == q)%Q.
Proof.
  intros Hm Hprec Hk Hq. unfold fl.
  destruct (Qeq_bool q 0) eqn:E.
  { apply Qeq_bool_iff in E. by rewrite E. }
  apply Qeq_bool_neq in E.
  set (e := Z.max (ilog2 q - (prec - 1)) emin).
  assert (e ≤ k)%Z as He.
  { apply Z.max_lub; [|done].
    cut (ilog2 q < prec + k)%Z; [lia|]. apply pow2_lt_inv.
    eapply Qle_lt_trans; [by apply ilog2_le|].
    rewrite Hq, Qabs_Qmult, pow2_plus, (Qabs_pos (pow2 k)) by apply Qlt_le_weak, pow2_pos.
    apply Qmult_lt_compat_r; [apply pow2_pos|].
    rewrite pow2_inject_Z by done.
    rewrite Qabs_inject_Z. rewrite <- Zlt_Qlt. done. }
  assert (q * pow2 (- e) == inject_Z (m * 2 ^ (k - e)))%Q as Hscaled.
  { rewrite Hq, inject_Z_mult, <- pow2_inject_Z by lia.
    replace (k - e)%Z with (k + - e)%Z by lia. rewrite pow2_plus. ring. }
  rewrite Qred_correct, Hscaled, rint_inject_Z.
  rewrite Hq, inject_Z_mult, <- pow2_inject_Z by lia.
  replace (k - e)%Z with (k + - e)%Z by lia. rewrite pow2_plus.
  rewrite <- !Qmult_assoc, (Qmult_comm (pow2 (- e))), pow2_opp_r. ring.
Qed.

Lemma float32_value_fl32 (q : Q) : float32_value q → (fl32 q == q)%Q.
Proof. intros (m & k & Hm & Hk & Hq). apply (fl_exact 24 (-149) m k); [done|lia|lia|done]. Qed.

Lemma float32_value_fl64 (q : Q) : float32_value q → (fl64 q == q)%Q.
Proof.
  intros (m & k & Hm & Hk & Hq). apply (fl_exact 53 (-1074) m k); [|lia|lia|done].
  eapply Z.lt_trans; [exact Hm|]. done.
Qed.

Global Instance float32_value_proper : Proper (Qeq ==> iff) float32_value.
Proof.
  intros x y E. unfold float32_value.
  split; intros (m & k & Hm & Hk & Hq); exists m, k; (split; [done|split; [done|]]).
  - by rewrite <- E.
  - by rewrite E.
Qed.

(** Rounding a [float32] value to an integer gives a [float32] value. *)
Lemma float32_value_rint (q : Q) : float32_value q → float32_value (inject_Z (rint q)).
Proof.
  intros (m & k & Hm & Hk & Hq).
  destruct (Z_lt_le_dec k 0) as [Hneg|Hpos].
  - exists (rint q), 0%Z. split; [|split; [lia|unfold pow2; simpl; ring]].
    assert (pow2 k <= 1 # 2)%Q as Hpk.
    { change (1 # 2)%Q with (pow2 (-1)). apply pow2_le. lia. }
    assert (Qabs q <= inject_Z (2 ^ 23))%Q as Hq23.
    { rewrite Hq, Qabs_Qmult, Qabs_inject_Z, (Qabs_pos (pow2 k)) by apply Qlt_le_weak, pow2_pos.
      apply Qle_trans with (inject_Z (2 ^ 24) * (1 # 2))%Q; [|done].
      apply Qmult_le_compat_nonneg.
      - split; [|rewrite <- Zle_Qle; lia].
        change 0%Q with (inject_Z 0). rewrite <- Zle_Qle. lia.
      - split; [apply Qlt_le_weak, pow2_pos|done]. }
    apply Qabs_Qle_condition in Hq23 as [Hlo Hhi].
    apply rint_monotone in Hlo, Hhi.
    rewrite <- inject_Z_opp in Hlo. rewrite rint_inject_Z in Hlo, Hhi. lia.
  - exists m, k. split; [done|split; [done|]].
    assert (q == inject_Z (m * 2 ^ k))%Q as E.
    { by rewrite Hq, inject_Z_mult, <- pow2_inject_Z. }
    rewrite E, rint_inject_Z, inject_Z_mult, <- pow2_inject_Z by done. reflexivity.
Qed.

(** * The code with the arithmetic of the library *)

Section with_arith.
Context (A : arith).
Implicit Types (idx : list nat) (factor fs : list num) (row : list Q).

Lemma put_cols_perturb_with idx factor (m : list (list Q)) :
  put_cols idx (astype_matrix A (np_round (multiply_with A (take_cols idx m) factor))) m
  = perturb_row_with A idx factor <$> m.
Proof.
  unfold put_cols, astype_matrix, np_round, multiply_with, take_cols.
  induction m as [|row m IH]; [done|]. simpl. f_equal. exact IH.
Qed.

Lemma perturb_row_with_length idx factor row :
  length (perturb_row_with A idx factor row) = length row.
Proof. apply put_row_length. Qed.

Lemma perturb_row_with_lookup_other idx factor row j :
  j ∉ idx → perturb_row_with A idx factor row !! j = row !! j.
Proof. apply put_row_lookup_other. Qed.

Lemma perturb_row_with_lookup_target idx factor row i j f x :
  NoDup idx → idx !! i = Some j → factor !! i = Some f → row !! j = Some x →
  perturb_row_with A idx factor row !! j = Some (entry_with A (length factor) x f).
Proof.
  intros Hnd Hi Hf Hx. unfold perturb_row_with.
  apply (put_row_lookup_written _ _ _ i); [done..| |by eapply lookup_lt_Some].
  rewrite !list_lookup_fmap, lookup_zip_with, list_lookup_fmap, Hi, Hf. simpl.
  by rewrite Hx.
Qed.

Lemma perturbed_with_rows (a : AnnData) idx fs (r : nat) (row' : list Q) :
  X (perturbed_with A a idx fs) !! r = Some row' ↔
  ∃ row, X a !! r = Some row ∧ row' = perturb_row_with A idx fs row.
Proof.
  unfold perturbed_with. simpl. rewrite list_lookup_fmap, fmap_Some. naive_solver.
Qed.

Lemma run_valid_with (h : gmap positive AnnData) (l : positive) (a : AnnData)
    (target : target_arg) (factor : factor_arg) fs (copy : bool) :
  h !! l = Some a → norm_factor factor = FSeq fs → NoDup (var_names a) →
  valid_request a (norm_target target) fs →
  ∃ idx, get_indexer (var_names a) (norm_target target) = Some idx ∧
    perturb_genes_with A l target factor copy h
    = if copy
      then (<[fresh (dom h) := perturbed_with A a idx fs]> h, Return (VRef (fresh (dom h))))
      else (<[l := perturbed_with A a idx fs]> h, Return VNone).
Proof.
  intros Hl Hfs Hnames (Hlen & Hin & Hpos & Hnd).
  destruct (get_indexer_is_Some _ _ Hin) as [idx Hidx]. exists idx. split; [done|].
  unfold perturb_genes_with. rewrite Hfs.
  rewrite bool_decide_eq_false_2 by (intros ?; done).
  unfold mbind, M_bind, deref. rewrite Hl.
  assert (py_truthy (filter (λ t, t ∉ var_names a) (norm_target target)) = false) as ->.
  { apply py_truthy_filter_false. eapply Forall_impl; [exact Hin|].
    intros t Ht Hn. exact (Hn Ht). }
  assert (py_truthy (filter (λ f, num_val f < 0)%Q fs) = false) as ->.
  { apply py_truthy_filter_false. eapply Forall_impl; [exact Hpos|].
    intros f Hf Hf'. exact (Qlt_not_le _ _ Hf' Hf). }
  rewrite bool_decide_eq_false_2 by (intros E; apply E; by apply length_size_NoDup).
  destruct copy.
  - unfold copy_obj, alloc, mbind, M_bind, mret, M_ret, deref. rewrite Hl. simpl.
    rewrite (getitem_cols_run _ _ a _ idx) by (auto || apply lookup_insert_eq).
    unfold view_get_X, mbind, M_bind, mret, M_ret, deref. simpl.
    rewrite lookup_insert_eq.
    rewrite (getitem_cols_run _ _ a _ idx) by (auto || apply lookup_insert_eq).
    unfold view_set_X, store, mbind, M_bind, deref. simpl.
    rewrite lookup_insert_eq, put_cols_perturb_with, insert_insert_eq. done.
  - unfold mbind, M_bind, mret, M_ret.
    rewrite (getitem_cols_run _ _ a _ idx) by auto.
    unfold view_get_X, mbind, M_bind, mret, M_ret, deref. simpl. rewrite Hl.
    rewrite (getitem_cols_run _ _ a _ idx) by auto.
    unfold view_set_X, store, mbind, M_bind, deref. simpl.
    rewrite Hl, put_cols_perturb_with. done.
Qed.
End with_arith.

Lemma astype_matrix_exact (m : list (list Q)) : astype_matrix exact_arith m = m.
Proof.
  unfold astype_matrix. induction m as [|row m IH]; [done|].
  rewrite fmap_cons, IH. f_equal. apply list_fmap_id.
Qed.

Lemma M_bind_ext {B C : Type} (f g : B → M C) (m : M B) (h : gmap positive AnnData) :
  (∀ b h', f b h' = g b h') → (m ≫= f) h = (m ≫= g) h.
Proof.
  intros Hfg. unfold mbind, M_bind. destruct (m h) as [h' [b|e]]; [apply Hfg|done].
Qed.

(** [perturb_genes] is the code with arithmetic free of rounding error. *)
Lemma perturb_genes_with_exact (h : gmap positive AnnData) (l : positive)
    (target : target_arg) (factor : factor_arg) (copy : bool) :
  perturb_genes_with exact_arith l target factor copy h
  = perturb_genes l target factor copy h.
Proof.
  unfold perturb_genes_with, perturb_genes.
  destruct (norm_factor factor) as [n|fs]; [done|].
  case_bool_decide; [done|].
  apply M_bind_ext. intros a h0.
  destruct (py_truthy (filter (λ t, t ∉ var_names a) (norm_target target))); [done|].
  destruct (py_truthy (filter (λ f, num_val f < 0)%Q fs)); [done|].
  case_bool_decide; [done|].
  apply M_bind_ext. intros l1 h1.
  apply M_bind_ext. intros v h2.
  apply M_bind_ext. intros x h3.
  apply M_bind_ext. intros v' h4.
  by rewrite astype_matrix_exact.
Qed.

(** ** Copy and in-place calls *)

(** C2: with [copy=True] the call returns a new object and the caller's
    object keeps every entry; with [copy=False] it returns [None] and the
    caller's object is changed.  In both cases the changed matrix has the
    labels and the shape of the input, the entries of the input outside
    the targeted columns, and in a targeted column the rounded product of
    the entry with the target's factor, converted to the dtype of the
    matrix; this for any arithmetic of the library. *)
Theorem C2_copy_flag (A : arith) (h : gmap positive AnnData) (l : positive)
    (a : AnnData) (target : target_arg) (factor : factor_arg) (fs : list num) :
  h !! l = Some a → NoDup (var_names a) → norm_factor factor = FSeq fs →
  valid_request a (norm_target target) fs →
  ∃ l' a',
    h !! l' = None ∧
    perturb_genes_with A l target factor true h = (<[l' := a']> h, Return (VRef l')) ∧
    <[l' := a']> h !! l = Some a ∧
    perturb_genes_with A l target factor false h = (<[l := a']> h, Return VNone) ∧
    var_names a' = var_names a ∧
    length (X a') = length (X a) ∧
    ∀ r row, X a !! r = Some row →
      ∃ row', X a' !! r = Some row' ∧ length row' = length row ∧
        (∀ j, (∀ t, t ∈ norm_target target → var_names a !! j ≠ Some t) →
              row' !! j = row !! j) ∧
        (∀ i t f j x,
           norm_target target !! i = Some t → fs !! i = Some f →
           var_names a !! j = Some t → row !! j = Some x →
           row' !! j = Some (entry_with A (length fs) x f)).
Proof.
  intros Hl Hnames Hfs Hvalid.
  destruct (run_valid_with A h l a target factor fs true Hl Hfs Hnames Hvalid)
    as (idx & Hidx & Ht).
  destruct (run_valid_with A h l a target factor fs false Hl Hfs Hnames Hvalid)
    as (idx' & Hidx' & Hf).
  assert (idx' = idx) as -> by congruence.
  exists (fresh (dom h)), (perturbed_with A a idx fs).
  assert (h !! fresh (dom h) = None) as Hfresh by apply not_elem_of_dom, is_fresh.
  split; [done|]. split; [done|]. split.
  { rewrite lookup_insert_ne; [done|]. intros E. rewrite E in Hfresh. congruence. }
  split; [done|]. split; [done|]. split; [apply length_fmap|].
  intros r row Hr. exists (perturb_row_with A idx fs row).
  split; [apply perturbed_with_rows; eauto|].
  split; [apply perturb_row_with_length|]. split.
  - intros j Hj. apply perturb_row_with_lookup_other. by eapply get_indexer_not_elem.
  - intros i t f j x Hti Hfi Hj Hx.
    destruct (get_indexer_lookup _ _ _ _ _ Hidx Hti) as (j' & Hj' & Hio).
    rewrite (index_of_NoDup _ _ _ Hnames Hj) in Hio.
    assert (j' = j) as -> by congruence.
    apply (perturb_row_with_lookup_target A _ _ _ i); [|done..].
    eapply get_indexer_NoDup; [done|]. apply Hvalid.
Qed.

(** ** The values written to a [float32] matrix *)

Lemma numpy_entry_exact (k : nat) (x : Q) (f : num) :
  float32_value (num_val f) → float32_value (x * num_val f) →
  (entry_with numpy_arith k x f == inject_Z (rint (x * num_val f)))%Q.
Proof.
  intros Hf Hxf. unfold entry_with. simpl.
  assert (rint (if decide (k = 1) then fl32 (x * fl32 (num_val f))
                else fl64 (x * fl64 (num_val f))) = rint (x * num_val f)) as ->.
  { apply rint_proper. destruct Hxf as (m & e & Hm & He & Hxf).
    destruct (decide (k = 1)).
    - assert (x * fl32 (num_val f) == inject_Z m * pow2 e)%Q as E.
      { by rewrite (float32_value_fl32 _ Hf). }
      rewrite (fl_exact 24 (-149) m e _ Hm ltac:(lia) ltac:(lia) E), E. by symmetry.
    - assert (x * fl64 (num_val f) == inject_Z m * pow2 e)%Q as E.
      { by rewrite (float32_value_fl64 _ Hf). }
      assert (Z.abs m < 2 ^ 53)%Z as Hm' by (eapply Z.lt_trans; [exact Hm|done]).
      rewrite (fl_exact 53 (-1074) m e _ Hm' ltac:(lia) ltac:(lia) E), E. by symmetry. }
  by apply float32_value_fl32, float32_value_rint.
Qed.

(** C1, as the code has it on a [float32] matrix: after a valid request
    every entry of a targeted column is the floating-point product of the
    entry with the factor at the target's position, rounded to the nearest
    integer, an exact half going to the even neighbour, and stored as
    [float32].  It is the exact product so rounded whenever the factor and
    the exact product are [float32] values; a count of 13 scaled by 0.5
    gives 6. *)
Theorem C1_targeted_entries (h : gmap positive AnnData) (l : positive) (a : AnnData)
    (target : target_arg) (factor : factor_arg) (fs : list num) (copy : bool) :
  h !! l = Some a → NoDup (var_names a) → norm_factor factor = FSeq fs →
  valid_request a (norm_target target) fs →
  ∃ h' v a',
    perturb_genes_with numpy_arith l target factor copy h = (h', Return v) ∧
    result_obj h' l v = Some a' ∧
    (∀ i t f j r row x,
       norm_target target !! i = Some t → fs !! i = Some f →
       var_names a !! j = Some t → X a !! r = Some row → row !! j = Some x →
       ∃ row' y, X a' !! r = Some row' ∧ row' !! j = Some y ∧
         y = entry_with numpy_arith (length fs) x f ∧
         (float32_value (num_val f) → float32_value (x * num_val f) →
          (y == inject_Z (rint (x * num_val f)))%Q)) ∧
    (∀ x k, Qabs (x - inject_Z (rint x)) <= Qabs (x - inject_Z k))%Q ∧
    (∀ x, Qabs (x - inject_Z (rint x)) == 1 # 2 → Z.even (rint x) = true)%Q ∧
    entry_with numpy_arith 2 13 (PyFloat (1 # 2)) = 6%Q.
Proof.
  intros Hl Hnames Hfs Hvalid.
  destruct (run_valid_with numpy_arith h l a target factor fs copy Hl Hfs Hnames Hvalid)
    as (idx & Hidx & Hrun).
  exists (if copy then <[fresh (dom h) := perturbed_with numpy_arith a idx fs]> h
          else <[l := perturbed_with numpy_arith a idx fs]> h),
    (if copy then VRef (fresh (dom h)) else VNone),
    (perturbed_with numpy_arith a idx fs).
  split; [by destruct copy|]. split; [destruct copy; apply lookup_insert_eq|].
  split; [|split; [apply rint_nearest|split; [apply rint_tie_even|by vm_compute]]].
  intros i t f j r row x Ht Hf Hj Hr Hx.
  exists (perturb_row_with numpy_arith idx fs row), (entry_with numpy_arith (length fs) x f).
  split; [apply perturbed_with_rows; eauto|]. split; [|split; [done|apply numpy_entry_exact]].
  destruct (get_indexer_lookup _ _ _ _ _ Hidx Ht) as (j' & Hj' & Hio).
  rewrite (index_of_NoDup _ _ _ Hnames Hj) in Hio.
  assert (j' = j) as -> by congruence.
  apply (perturb_row_with_lookup_target numpy_arith _ _ _ i); [|done..].
  eapply get_indexer_NoDup; [done|]. apply Hvalid.
Qed.

(** C1 as stated fails: a count of 15 scaled by the factor 2.1 becomes 31,
    while 15 times 2.1, be it the double or the decimal fraction, rounds
    to 32. *)
Lemma C1_counterexample :
  perturb_genes_with numpy_arith 1 (TStr "G") (FNum (PyFloat double_2_1)) false
    (one_count_heap 15)
  = (one_count_heap 31, Return VNone) ∧
  valid_request (one_count 15) ["G"] [PyFloat double_2_1] ∧
  inject_Z (rint (15 * double_2_1)) = 32%Q ∧
  inject_Z (rint (15 * (21 # 10))) = 32%Q.
Proof.
  split; [vm_compute; reflexivity|]. split; [|split; by vm_compute].
  split; [done|]. split; [|split].
  - repeat constructor.
  - by repeat constructor.
  - apply (bool_decide_unpack _). by vm_compute.
Qed.

(** ** The message of the not-found error *)

Lemma is_prefix_app (s post : string) : is_prefix s (s +:+ post) = true.
Proof.
  induction s as [|c s IH]; [by destruct post|].
  change (String c s +:+ post) with (String c (s +:+ post)). simpl.
  by rewrite decide_True.
Qed.

Lemma is_substring_complete (s m : string) :
  substring_of s m → is_substring s m = true.
Proof.
  intros (pre & post & ->). induction pre as [|c pre IH].
  - change ("" +:+ s +:+ post) with (s +:+ post).
    destruct (s +:+ post) eqn:E; simpl; rewrite <- E, is_prefix_app; done.
  - change (String c pre +:+ s +:+ post) with (String c (pre +:+ s +:+ post)).
    simpl. rewrite IH. apply orb_true_r.
Qed.

(** C7, as the code has it: when the lengths match and a target is not a
    column label, the call raises the not-found error; its message shows
    every such target and the first three column labels as [repr] prints
    them, which is the identifier itself, between quotes, for an
    identifier without quote, backslash or unprintable character. *)
Theorem C7_unknown_target_message (h : gmap positive AnnData) (l : positive)
    (a : AnnData) (target : target_arg) (factor : factor_arg) (fs : list num)
    (copy : bool) :
  h !! l = Some a → norm_factor factor = FSeq fs →
  length (norm_target target) = length fs →
  (∃ t, t ∈ norm_target target ∧ t ∉ var_names a) →
  ∃ msg,
    perturb_genes l target factor copy h = (h, Raise (ValueError msg)) ∧
    ValueError msg = error_of UnknownTarget a (norm_target target) fs ∧
    (∀ t, t ∈ norm_target target → t ∉ var_names a →
          substring_of (repr_str t) msg ∧ (plain t = true → substring_of t msg)) ∧
    (∀ g, g ∈ take 3 (var_names a) →
          substring_of (repr_str g) msg ∧ (plain g = true → substring_of g msg)).
Proof.
  intros Hl Hfs Hlen Hmiss. eexists. split; [by eapply run_unknown_target|].
  split; [done|].
  assert (∀ s m, substring_of (repr_str s) m →
            substring_of (repr_str s) m ∧ (plain s = true → substring_of s m)) as Hplain.
  { intros s m Hs. split; [done|]. intros Hp.
    eapply substring_of_trans; [by apply repr_str_contains_plain|done]. }
  unfold msg_missing. split.
  - intros t Ht Hn. apply Hplain, substring_of_app_l, substring_of_app_r.
    apply repr_list_contains, list_elem_of_filter. done.
  - intros g Hg. apply Hplain.
    by apply substring_of_app_l, substring_of_app_l, substring_of_app_l, repr_list_contains.
Qed.

(** C7 as stated fails: the identifier [a\b], absent from the labels, is
    shown with its backslash doubled, and the message does not contain the
    identifier. *)
Lemma C7_counterexample :
  perturb_genes 1 (TStr id_backslash) (FNum (PyFloat 1)) false nb_heap
    = (nb_heap, Raise (ValueError backslash_msg)) ∧
  (id_backslash ∉ var_names nb_adata) ∧
  ¬ substring_of id_backslash backslash_msg ∧
  substring_of (repr_str id_backslash) backslash_msg.
Proof.
  split; [vm_compute; reflexivity|]. split; [|split].
  - apply (bool_decide_unpack _). by vm_compute.
  - intros H%is_substring_complete. by vm_compute in H.
  - apply substring_of_app_l, substring_of_app_r, repr_list_contains.
    apply elem_of_cons. by left.
Qed.

(** ** The revised theorems on the notebook's data *)

Lemma C1_witness :
  ∃ h' v a',
    perturb_genes_with numpy_arith 1 (TSeq ["ENSG00000171532"; "ENSG00000078018"])
      (FSeq [PyFloat 2; PyFloat (1 # 2)]) false nb_heap = (h', Return v) ∧
    result_obj h' 1 v = Some a' ∧
    (∀ i t f j r row x,
       ["ENSG00000171532"; "ENSG00000078018"] !! i = Some t →
       [PyFloat 2; PyFloat (1 # 2)] !! i = Some f →
       var_names nb_adata !! j = Some t → X nb_adata !! r = Some row →
       row !! j = Some x →
       ∃ row' y, X a' !! r = Some row' ∧ row' !! j = Some y ∧
         y = entry_with numpy_arith (length [PyFloat 2; PyFloat (1 # 2)]) x f ∧
         (float32_value (num_val f) → float32_value (x * num_val f) →
          (y == inject_Z (rint (x * num_val f)))%Q)) ∧
    (∀ x k, Qabs (x - inject_Z (rint x)) <= Qabs (x - inject_Z k))%Q ∧
    (∀ x, Qabs (x - inject_Z (rint x)) == 1 # 2 → Z.even (rint x) = true)%Q ∧
    entry_with numpy_arith 2 13 (PyFloat (1 # 2)) = 6%Q.
Proof.
  apply (C1_targeted_entries nb_heap 1 nb_adata
           (TSeq ["ENSG00000171532"; "ENSG00000078018"])
           (FSeq [PyFloat 2; PyFloat (1 # 2)]) [PyFloat 2; PyFloat (1 # 2)] false).
  - exact nb_lookup.
  - exact nb_var_names_NoDup.
  - reflexivity.
  - apply nb_valid_request; discriminate.
Defined.

Lemma C2_witness :
  ∃ l' a',
    nb_heap !! l' = None ∧
    perturb_genes_with numpy_arith 1 (TSeq ["ENSG00000171532"; "ENSG00000078018"])
      (FSeq [PyFloat 2; PyFloat (1 # 2)]) true nb_heap
      = (<[l' := a']> nb_heap, Return (VRef l')) ∧
    <[l' := a']> nb_heap !! 1%positive = Some nb_adata ∧
    perturb_genes_with numpy_arith 1 (TSeq ["ENSG00000171532"; "ENSG00000078018"])
      (FSeq [PyFloat 2; PyFloat (1 # 2)]) false nb_heap
      = (<[1%positive := a']> nb_heap, Return VNone) ∧
    var_names a' = var_names nb_adata ∧
    length (X a') = length (X nb_adata) ∧
    ∀ r row, X nb_adata !! r = Some row →
      ∃ row', X a' !! r = Some row' ∧ length row' = length row ∧
        (∀ j, (∀ t, t ∈ ["ENSG00000171532"; "ENSG00000078018"] →
                    var_names nb_adata !! j ≠ Some t) →
              row' !! j = row !! j) ∧
        (∀ i t f j x,
           ["ENSG00000171532"; "ENSG00000078018"] !! i = Some t →
           [PyFloat 2; PyFloat (1 # 2)] !! i = Some f →
           var_names nb_adata !! j = Some t → row !! j = Some x →
           row' !! j
           = Some (entry_with numpy_arith (length [PyFloat 2; PyFloat (1 # 2)]) x f)).
Proof.
  apply (C2_copy_flag numpy_arith nb_heap 1 nb_adata
           (TSeq ["ENSG00000171532"; "ENSG00000078018"])
           (FSeq [PyFloat 2; PyFloat (1 # 2)]) [PyFloat 2; PyFloat (1 # 2)]).
  - exact nb_lookup.
  - exact nb_var_names_NoDup.
  - reflexivity.
  - apply nb_valid_request; discriminate.
Defined.

Lemma C7_witness :
  ∃ msg,
    perturb_genes 1 (TSeq ["ENSG00000171532"; "TP53"]) (FSeq [PyFloat 1; PyFloat 1])
      false nb_heap = (nb_heap, Raise (ValueError msg)) ∧
    ValueError msg
      = error_of UnknownTarget nb_adata ["ENSG00000171532"; "TP53"] [PyFloat 1; PyFloat 1] ∧
    (∀ t, t ∈ ["ENSG00000171532"; "TP53"] → t ∉ var_names nb_adata →
          substring_of (repr_str t) msg ∧ (plain t = true → substring_of t msg)) ∧
    (∀ g, g ∈ take 3 (var_names nb_adata) →
          substring_of (repr_str g) msg ∧ (plain g = true → substring_of g msg)).
Proof.
  apply (C7_unknown_target_message nb_heap 1 nb_adata
           (TSeq ["ENSG00000171532"; "TP53"]) (FSeq [PyFloat 1; PyFloat 1])
           [PyFloat 1; PyFloat 1] false).
  - exact nb_lookup.
  - reflexivity.
  - reflexivity.
  - exists "TP53". split; by_computation.
Defined.

(** ** Counts in a [float32] matrix *)

Global Instance integer_valued_proper : Proper (Qeq ==> iff) integer_valued.
Proof.
  intros x y E. unfold integer_valued. by rewrite (Qfloor_comp _ _ E), E.
Qed.

Lemma fl_nonneg (prec emin : Z) (q : Q) : (0 <= q)%Q → (0 <= fl prec emin q)%Q.
Proof.
  intros Hq. unfold fl. destruct (Qeq_bool q 0); [done|].
  rewrite Qred_correct. apply Qmult_le_0_compat; [|apply Qlt_le_weak, pow2_pos].
  change 0%Q with (inject_Z 0). rewrite <- Zle_Qle. apply rint_nonneg.
  apply Qmult_le_0_compat; [done|apply Qlt_le_weak, pow2_pos].
Qed.

Lemma fl_zero (prec emin : Z) (q : Q) : (q == 0)%Q → fl prec emin q = 0%Q.
Proof. intros Hq. unfold fl. by rewrite (proj2 (Qeq_bool_iff q 0) Hq). Qed.

(** Rounding a whole number to a float gives a whole number. *)
Lemma fl_integer (prec emin z : Z) : integer_valued (fl prec emin (inject_Z z)).
Proof.
  unfold fl. destruct (Qeq_bool (inject_Z z) 0); [apply (integer_valued_inject_Z 0)|].
  set (e := Z.max (ilog2 (inject_Z z) - (prec - 1)) emin).
  rewrite Qred_correct.
  destruct (Z_lt_le_dec e 0) as [Hneg|Hpos].
  - assert (inject_Z z * pow2 (- e) == inject_Z (z * 2 ^ (- e)))%Q as E.
    { by rewrite inject_Z_mult, <- pow2_inject_Z by lia. }
    rewrite E, rint_inject_Z, <- E, <- Qmult_assoc, (Qmult_comm (pow2 (- e))), pow2_opp_r.
    rewrite Qmult_1_r. apply integer_valued_inject_Z.
  - rewrite (pow2_inject_Z e), <- inject_Z_mult by done. apply integer_valued_inject_Z.
Qed.

Lemma numpy_entry_integer (k : nat) (x : Q) (f : num) :
  integer_valued (entry_with numpy_arith k x f).
Proof. apply fl_integer. Qed.

Lemma numpy_entry_nonneg (k : nat) (x : Q) (f : num) :
  (0 <= x)%Q → (0 <= num_val f)%Q → (0 <= entry_with numpy_arith k x f)%Q.
Proof.
  intros Hx Hf. unfold entry_with. simpl. apply fl_nonneg.
  change 0%Q with (inject_Z 0). rewrite <- Zle_Qle. apply rint_nonneg.
  destruct (decide (k = 1)); apply fl_nonneg, Qmult_le_0_compat; try done;
    by apply fl_nonneg.
Qed.

Lemma numpy_entry_zero (k : nat) (x : Q) (f : num) :
  (x == 0)%Q → entry_with numpy_arith k x f = 0%Q.
Proof.
  intros Hx. unfold entry_with. simpl.
  assert ((if decide (k = 1) then fl32 (x * fl32 (num_val f))
           else fl64 (x * fl64 (num_val f))) = 0%Q) as ->.
  { destruct (decide (k = 1)); apply fl_zero; rewrite Hx; ring. }
  reflexivity.
Qed.

Lemma perturb_row_with_lookup_cases (A : arith) (idx : list nat) (fs : list num)
    (row : list Q) (j : nat) :
  perturb_row_with A idx fs row !! j = row !! j ∨
  ∃ i f x, idx !! i = Some j ∧ fs !! i = Some f ∧ row !! j = Some x ∧
           perturb_row_with A idx fs row !! j = Some (entry_with A (length fs) x f).
Proof.
  unfold perturb_row_with.
  destruct (put_row_lookup_cases idx
    (astype A <$>
       ((λ x, inject_Z (rint x)) <$>
          zip_with (mul A (length fs)) ((λ j, default 0%Q (row !! j)) <$> idx) fs))
    row j) as [E|(Hlt & i & v & Hi & Hv & E)]; [by left|right].
  rewrite !list_lookup_fmap, lookup_zip_with, list_lookup_fmap, Hi in Hv. simpl in Hv.
  destruct (fs !! i) as [f|] eqn:Hf; [|done]. simpl in Hv.
  destruct (lookup_lt_is_Some_2 row j Hlt) as [x Hx].
  exists i, f, x. rewrite Hx in Hv. simpl in Hv. rewrite E. by simplify_eq.
Qed.

(** X13: in the arithmetic of a [float32] matrix too, a valid request
    leaves whole numbers in the targeted columns, keeps a matrix without
    negative entries free of them and keeps every zero a zero. *)
Theorem X13_float32_counts (h : gmap positive AnnData) (l : positive) (a : AnnData)
    (target : target_arg) (factor : factor_arg) (fs : list num) (copy : bool) :
  h !! l = Some a → NoDup (var_names a) → norm_factor factor = FSeq fs →
  valid_request a (norm_target target) fs →
  ∃ h' v a',
    perturb_genes_with numpy_arith l target factor copy h = (h', Return v) ∧
    result_obj h' l v = Some a' ∧
    (∀ t j r row' y,
       t ∈ norm_target target → var_names a !! j = Some t →
       X a' !! r = Some row' → row' !! j = Some y → integer_valued y) ∧
    (Forall (Forall (λ x, 0 <= x)%Q) (X a) → Forall (Forall (λ x, 0 <= x)%Q) (X a')) ∧
    (∀ r row j x, X a !! r = Some row → row !! j = Some x → (x == 0)%Q →
       ∃ row' y, X a' !! r = Some row' ∧ row' !! j = Some y ∧ (y == 0)%Q).
Proof.
  intros Hl Hnames Hfs Hvalid.
  destruct (run_valid_with numpy_arith h l a target factor fs copy Hl Hfs Hnames Hvalid)
    as (idx & Hidx & Hrun).
  exists (if copy then <[fresh (dom h) := perturbed_with numpy_arith a idx fs]> h
          else <[l := perturbed_with numpy_arith a idx fs]> h),
    (if copy then VRef (fresh (dom h)) else VNone),
    (perturbed_with numpy_arith a idx fs).
  split; [by destruct copy|]. split; [destruct copy; apply lookup_insert_eq|].
  split; [|split].
  - intros t j r row' y [i Ht]%list_elem_of_lookup Hj
      (row & Hr & ->)%perturbed_with_rows Hy.
    assert (is_Some (row !! j)) as [x Hx].
    { apply lookup_lt_is_Some. rewrite <- (perturb_row_with_length numpy_arith idx fs row).
      by eapply lookup_lt_Some. }
    assert (is_Some (fs !! i)) as [f Hf].
    { apply lookup_lt_is_Some. destruct Hvalid as [<- _]. by eapply lookup_lt_Some. }
    destruct (get_indexer_lookup _ _ _ _ _ Hidx Ht) as (j' & Hj' & Hio).
    rewrite (index_of_NoDup _ _ _ Hnames Hj) in Hio.
    assert (j' = j) as -> by congruence.
    rewrite (perturb_row_with_lookup_target numpy_arith idx fs row i j f x) in Hy;
      [|by eapply get_indexer_NoDup; [|apply Hvalid]|done..].
    simplify_eq. apply numpy_entry_integer.
  - intros Hpos. simpl. apply Forall_fmap. eapply Forall_impl; [exact Hpos|].
    intros row Hrow. apply Forall_lookup. intros j y Hy.
    rewrite Forall_lookup in Hrow.
    destruct (perturb_row_with_lookup_cases numpy_arith idx fs row j)
      as [E|(i & f & x & Hi & Hf & Hx & E)]; rewrite E in Hy.
    + by eapply Hrow.
    + simplify_eq. apply numpy_entry_nonneg; [by eapply Hrow|].
      destruct Hvalid as (_ & _ & Hfpos & _). rewrite Forall_lookup in Hfpos.
      by eapply Hfpos.
  - intros r row j x Hr Hx Hzero. exists (perturb_row_with numpy_arith idx fs row).
    destruct (perturb_row_with_lookup_cases numpy_arith idx fs row j)
      as [E|(i & f & x' & Hi & Hf & Hx' & E)].
    + exists x. split; [apply perturbed_with_rows; eauto|]. by rewrite E.
    + exists (entry_with numpy_arith (length fs) x' f).
      split; [apply perturbed_with_rows; eauto|]. split; [done|]. simplify_eq.
      by rewrite numpy_entry_zero.
Qed.

Lemma X13_witness :
  ∃ h' v a',
    perturb_genes_with numpy_arith 1 (TSeq ["ENSG00000171532"; "ENSG00000078018"])
      (FSeq [PyFloat 2; PyFloat (1 # 2)]) false nb_heap = (h', Return v) ∧
    result_obj h' 1 v = Some a' ∧
    (∀ t j r row' y,
       t ∈ ["ENSG00000171532"; "ENSG00000078018"] → var_names nb_adata !! j = Some t →
       X a' !! r = Some row' → row' !! j = Some y → integer_valued y) ∧
    (Forall (Forall (λ x, 0 <= x)%Q) (X nb_adata) →
     Forall (Forall (λ x, 0 <= x)%Q) (X a')) ∧
    (∀ r row j x, X nb_adata !! r = Some row → row !! j = Some x → (x == 0)%Q →
       ∃ row' y, X a' !! r = Some row' ∧ row' !! j = Some y ∧ (y == 0)%Q).
Proof.
  apply (X13_float32_counts nb_heap 1 nb_adata
           (TSeq ["ENSG00000171532"; "ENSG00000078018"])
           (FSeq [PyFloat 2; PyFloat (1 # 2)]) [PyFloat 2; PyFloat (1 # 2)] false).
  - exact nb_lookup.
  - exact nb_var_names_NoDup.
  - reflexivity.
  - apply nb_valid_request; discriminate.
Defined.
